(** * ReadNext crawler (crawl.py): a shallow embedding and its properties

    The crawler reads a catalog of named sources, looks for a syndication
    feed behind every URL of a source, keeps the feed entries that are not
    older than a cutoff, and falls back to a screenshot of the page.

    Python values are modelled as follows.
    - [str] is [string]; a character is a code point below 256.
    - [str | None] is [option string]; the truth value of such a value in an
      [if] is [truthy].
    - an aware [datetime] is an instant in [Z]; [isoformat] is not modelled,
      the ["date"] field of an entry keeps the instant itself.
    - a [dict] with fixed keys is a [Record].
    - the network, the feed parser, the HTML parser and the headless browser
      are collaborators gathered in the class [Collaborators]; their answers
      may depend on a world state that every call threads through.
    - an exception the code catches is an answer [None] of the collaborator;
      the [ValueError] of [urlparse], which no [try] of the code covers, is
      the result [None] of a computation in [E]. *)

From Stdlib Require Import String Ascii List ZArith Bool Lia PeanoNat.
Import ListNotations.
Open Scope string_scope.

(** ** Python string operations *)

Module PyStr.

(** [str.isspace] on one character, for code points below 256. *)
Definition isspace (c : ascii) : bool :=
  let n := nat_of_ascii c in
  (((9 <=? n) && (n <=? 13)) || ((28 <=? n) && (n <=? 32))
   || (n =? 133) || (n =? 160))%nat.

Definition is_empty (s : string) : bool :=
  match s with EmptyString => true | String _ _ => false end.

Fixpoint lstrip (s : string) : string :=
  match s with
  | EmptyString => EmptyString
  | String c s' => if isspace c then lstrip s' else s
  end.

Fixpoint rstrip (s : string) : string :=
  match s with
  | EmptyString => EmptyString
  | String c s' =>
      match rstrip s' with
      | EmptyString => if isspace c then EmptyString else String c EmptyString
      | r => String c r
      end
  end.

(** [s.strip()] *)
Definition strip (s : string) : string := lstrip (rstrip s).

(** [s.rstrip(ch)] for a one-character argument. *)
Fixpoint rstrip_char (ch : ascii) (s : string) : string :=
  match s with
  | EmptyString => EmptyString
  | String c s' =>
      match rstrip_char ch s' with
      | EmptyString => if Ascii.eqb c ch then EmptyString else String c EmptyString
      | r => String c r
      end
  end.

(** [s.startswith(p)] *)
Definition startswith (p s : string) : bool := String.prefix p s.

(** [sub in s] *)
Fixpoint contains (sub s : string) : bool :=
  String.prefix sub s
  || match s with
     | EmptyString => false
     | String _ s' => contains sub s'
     end.

Fixpoint drop (n : nat) (s : string) : string :=
  match n, s with
  | O, _ => s
  | S _, EmptyString => EmptyString
  | S n', String _ s' => drop n' s'
  end.

(** [s[:n]] *)
Fixpoint take (n : nat) (s : string) : string :=
  match n, s with
  | O, _ => EmptyString
  | S _, EmptyString => EmptyString
  | S n', String c s' => String c (take n' s')
  end.

(** [s.removeprefix(p)] *)
Definition removeprefix (p s : string) : string :=
  if String.prefix p s then drop (String.length p) s else s.

Definition lower_char (c : ascii) : ascii :=
  let n := nat_of_ascii c in
  if (((65 <=? n) && (n <=? 90))
      || ((192 <=? n) && (n <=? 222) && negb (n =? 215)))%nat
  then ascii_of_nat (n + 32) else c.

(** [s.lower()], for code points below 256. *)
Fixpoint lower (s : string) : string :=
  match s with
  | EmptyString => EmptyString
  | String c s' => String (lower_char c) (lower s')
  end.

(** [re.sub(r"\s+", " ", s)]: every maximal run of whitespace becomes one
    space.  [in_run] tells that the previous character was whitespace. *)
Fixpoint sub_ws (in_run : bool) (s : string) : string :=
  match s with
  | EmptyString => EmptyString
  | String c s' =>
      if isspace c
      then if in_run then sub_ws true s' else String " " (sub_ws true s')
      else String c (sub_ws false s')
  end.

Fixpoint repeat_char (c : ascii) (n : nat) : string :=
  match n with
  | O => EmptyString
  | S n' => String c (repeat_char c n')
  end.

(** The truth value of a [str | None] in a condition. *)
Definition truthy (o : option string) : bool :=
  match o with
  | Some s => negb (is_empty s)
  | None => false
  end.

End PyStr.
Import PyStr.

(** ** SourceList: [parse_links_file] *)

Record source := mk_source { name : string; urls : list string }.

Definition is_url (line : string) : bool :=
  startswith "http://" line || startswith "https://" line.

(** [if current and current["urls"]: entries.append(current)]: a dict with
    two keys is never falsy, so only [None] and an empty url list block the
    append. *)
Definition flush (current : option source) : list source :=
  match current with
  | Some c => match urls c with [] => [] | _ :: _ => [c] end
  | None => []
  end.

(** The body of the [for line in f] loop on a line that is not blank after
    [strip]: the new value of [current]. *)
Definition on_line (current : option source) (line : string) : option source :=
  if is_url line then
    let c := match current with
             | None => mk_source "" []
             | Some c => c
             end in
    Some (mk_source (name c) (urls c ++ [line]))
  else Some (mk_source line []).

(** The loop of [parse_links_file] over the lines that iterating the file
    yields, with its two variables [entries] and [current]. *)
Fixpoint parse_lines (lines : list string) (entries : list source)
         (current : option source) : list source :=
  match lines with
  | [] => entries ++ flush current
  | raw :: rest =>
      let line := strip raw in
      if is_empty line
      then parse_lines rest (entries ++ flush current) None
      else parse_lines rest entries (on_line current line)
  end.

(** Iterating a text file: the lines, each with its terminating newline. *)
Fixpoint file_lines_from (cur : string) (text : string) : list string :=
  match text with
  | EmptyString => if is_empty cur then [] else [cur]
  | String c t =>
      if Ascii.eqb c "010"%char
      then (cur ++ String c EmptyString) :: file_lines_from EmptyString t
      else file_lines_from (cur ++ String c EmptyString) t
  end.

Definition file_lines (text : string) : list string :=
  file_lines_from EmptyString text.

Definition parse_links_file (text : string) : list source :=
  parse_lines (file_lines text) [] None.

(** *** The catalog grammar in the words of the specification *)

(** Blocks: the maximal runs of non-blank (stripped) lines. *)
Fixpoint split_blocks (cur : list string) (lines : list string)
  : list (list string) :=
  match lines with
  | [] => match cur with [] => [] | _ :: _ => [cur] end
  | raw :: rest =>
      let line := strip raw in
      if is_empty line
      then match cur with [] => [] | _ :: _ => [cur] end ++ split_blocks [] rest
      else split_blocks (cur ++ [line]) rest
  end.

Definition blocks (text : string) : list (list string) :=
  split_blocks [] (file_lines text).

(** The source of one block as the specification words it: the first line
    names the source unless it is a URL, then the name is empty; the URL
    lines of the block are its URLs; no URL, no source. *)
Definition spec_source (block : list string) : list source :=
  match block with
  | [] => []
  | first :: rest =>
      if is_url first
      then [mk_source "" (filter is_url block)]
      else match filter is_url rest with
           | [] => []
           | us => [mk_source first us]
           end
  end.

Definition spec_parse_links (text : string) : list source :=
  flat_map spec_source (blocks text).

(** What the loop makes of one block: the state of [current] at its end. *)
Definition block_state (block : list string) : option source :=
  fold_left on_line block None.

(** A block is regular when only its first line may be a name. *)
Definition regular_block (block : list string) : bool :=
  forallb is_url (tl block).

Definition regular_catalog (text : string) : bool :=
  forallb regular_block (blocks text).

(** ** Collaborators and effects *)

(** What the code reads of a [requests] response. *)
Record response := mk_response {
  status_code : Z;
  content_type : option string;   (* [resp.headers.get("content-type")] *)
  text : string
}.

(** A [<link rel="alternate">] element: its [type] and [href] attributes. *)
Record link_tag := mk_link {
  link_type : option string;
  link_href : option string
}.

(** What the code reads of [urlparse(url)]. *)
Record url_parts := mk_parts { scheme : string; netloc : string }.

(** A [time.struct_time] is a tuple of integers. *)
Definition struct_time := list Z.

(** A feed entry as [feedparser] gives it: every key may be missing. *)
Record feed_entry := mk_feed_entry {
  fe_title : option string;
  fe_link : option string;
  fe_summary : option string;
  published_parsed : option struct_time;
  updated_parsed : option struct_time
}.

Record parsed_feed := mk_feed { bozo : bool; feed_entries : list feed_entry }.

(** The libraries and the outside world the crawler calls.  A call that
    raises answers [None]. *)
Class Collaborators (W : Type) := {
  (** [urllib.parse.urlparse]; [None] is the [ValueError] it raises on a URL
      it rejects, which the code catches nowhere *)
  urlparse : string -> option url_parts;
  (** [requests.get(url, ...)]; [None] is a [RequestException] *)
  requests_get : string -> W -> option response * W;
  (** [requests.head(url, ..., allow_redirects=True)] *)
  requests_head : string -> W -> option response * W;
  (** [BeautifulSoup(text, "html.parser").find_all("link", rel="alternate")] *)
  soup_alternate_links : string -> list link_tag;
  (** [BeautifulSoup(text, "html.parser").get_text(separator=" ")] *)
  soup_get_text : string -> string;
  (** [feedparser.parse(feed_url, ...)] *)
  feedparser_parse : string -> W -> parsed_feed * W;
  (** [datetime.fromtimestamp(mktime(t), tz=timezone.utc)]; [None] is a
      [ValueError] or an [OverflowError] *)
  datetime_of : struct_time -> option Z;
  (** whether [from playwright.sync_api import sync_playwright] succeeds *)
  playwright_installed : W -> bool;
  (** [datetime.now().strftime("%Y-%m-%d")] *)
  today : W -> string;
  (** the [with sync_playwright()] block on a url and a file path; [false]
      is any exception *)
  page_screenshot : string -> string -> W -> bool * W
}.

(** The calls that leave the process, in the order they are made. *)
Inductive event :=
| Get (url : string)
| Head (url : string) (status : option Z)
| FeedFetch (url : string)
| Capture (url : string).

Definition event_url (e : event) : string :=
  match e with
  | Get u | Head u _ | FeedFetch u | Capture u => u
  end.

Record state (W : Type) := mk_state { world : W; trace : list event }.
Arguments mk_state {W} _ _.
Arguments world {W} _.
Arguments trace {W} _.

(** ** Configuration *)

Definition SKIP_DOMAINS : list string := ["nitter.net"].

Definition WELL_KNOWN_FEED_PATHS : list string :=
  ["/feed"; "/rss"; "/rss.xml"; "/atom.xml"; "/feed.xml"; "/index.xml"].

Definition PLATFORM_FEED_PATTERNS : list (string * (string -> string)) :=
  [ ("medium.com", fun url => rstrip_char "/" url ++ "/feed");
    ("substack.com", fun url => rstrip_char "/" url ++ "/feed") ].

(** ** Results *)

Record entry := mk_entry {
  title : string;
  url : string;
  date : option Z;
  summary : string
}.

Record crawl_record := mk_record {
  res_name : string;
  res_urls : list string;
  method : option string;
  feed_url : option string;
  new_entries : list entry;
  screenshots : list string
}.

Definition set_rss (r : crawl_record) (f : string) (es : list entry) :=
  mk_record (res_name r) (res_urls r) (Some "rss") (Some f)
            (new_entries r ++ es) (screenshots r).

Definition add_screenshot (r : crawl_record) (p : string) :=
  mk_record (res_name r) (res_urls r)
            (if truthy (method r) then method r else Some "screenshot")
            (feed_url r) (new_entries r) (screenshots r ++ [p]).

Definition default_method (r : crawl_record) (m : string) :=
  mk_record (res_name r) (res_urls r)
            (if truthy (method r) then method r else Some m)
            (feed_url r) (new_entries r) (screenshots r).

Definition str_in (s : string) (l : list string) : bool :=
  existsb (String.eqb s) l.

Section Crawler.

Context {W : Type} `{Collaborators W}.

(** *** A state monad over the world and the trace *)

(** Code that raises nothing. *)
Definition M (A : Type) : Type := state W -> A * state W.

Definition ret {A : Type} (a : A) : M A := fun s => (a, s).

Definition bind {A B : Type} (m : M A) (k : A -> M B) : M B :=
  fun s => let (a, s') := m s in k a s'.

Notation "x <- m ;; k" := (bind m (fun x => k))
  (at level 61, m at next level, right associativity).

(** Code that may raise: the result [None] is the [ValueError] of
    [urlparse] on its way up; the state is the one at the raise. *)
Definition E (A : Type) : Type := state W -> option A * state W.

Definition retE {A : Type} (a : A) : E A := fun s => (Some a, s).

Definition bindE {A B : Type} (m : E A) (k : A -> E B) : E B :=
  fun s => match m s with
           | (Some a, s') => k a s'
           | (None, s') => (None, s')
           end.

(** A computation that raises nothing, run where one may raise. *)
Definition run {A : Type} (m : M A) : E A :=
  fun s => let (a, s') := m s in (Some a, s').

(** The value of an expression that may raise. *)
Definition eval {A : Type} (o : option A) : E A := fun s => (o, s).

Notation "x <-! m ;; k" := (bindE m (fun x => k))
  (at level 61, m at next level, right associativity).

Definition http_get (u : string) : M (option response) :=
  fun s => let (r, w) := requests_get u (world s) in
           (r, mk_state w (trace s ++ [Get u])).

Definition http_head (u : string) : M (option response) :=
  fun s => let (r, w) := requests_head u (world s) in
           (r, mk_state w (trace s ++ [Head u (option_map status_code r)])).

Definition feed_parse (u : string) : M parsed_feed :=
  fun s => let (f, w) := feedparser_parse u (world s) in
           (f, mk_state w (trace s ++ [FeedFetch u])).

(** *** Hosts and the skip-list *)

Definition domain_of (u : string) : option string :=
  match urlparse u with
  | Some parsed => Some (removeprefix "www." (netloc parsed))
  | None => None
  end.

Definition should_skip (u : string) : option bool :=
  match domain_of u with
  | Some domain => Some (str_in domain SKIP_DOMAINS)
  | None => None
  end.

(** *** FeedLocator *)

(** [resp.raise_for_status()] raises for 4xx and 5xx. *)
Definition raises_for_status (r : response) : bool :=
  ((400 <=? status_code r) && (status_code r <? 600))%Z.

(** The [href] of a link made absolute; [urlparse(url)] is called, and may
    raise, for a relative one only. *)
Definition resolve_href (u href : string) : option string :=
  if negb (is_empty href) && negb (startswith "http" href) then
    match urlparse u with
    | Some parsed =>
        Some (if startswith "/" href
              then scheme parsed ++ "://" ++ netloc parsed ++ href
              else scheme parsed ++ "://" ++ netloc parsed ++ "/" ++ href)
    | None => None
    end
  else Some href.

(** The [for link in soup.find_all(...)] loop; the outer [None] is a
    raise, the inner one the [return None] after the loop. *)
Fixpoint first_feed_link (u : string) (links : list link_tag)
  : option (option string) :=
  match links with
  | [] => Some None
  | link :: rest =>
      let ty := lower (match link_type link with
                       | Some t => t
                       | None => ""
                       end) in
      if contains "rss" ty || contains "atom" ty then
        match resolve_href u (match link_href link with
                              | Some h => h
                              | None => ""
                              end) with
        | Some href =>
            if negb (is_empty href) then Some (Some href)
            else first_feed_link u rest
        | None => None
        end
      else first_feed_link u rest
  end.

Definition discover_feed_from_html (u : string) : E (option string) :=
  r <-! run (http_get u) ;;
  match r with
  | None => retE None
  | Some resp =>
      if raises_for_status resp then retE None
      else eval (first_feed_link u (soup_alternate_links (text resp)))
  end.

Definition feed_content_type (ct : string) : bool :=
  contains "xml" ct || contains "rss" ct || contains "atom" ct.

Fixpoint probe_well_known (base : string) (paths : list string)
  : M (option string) :=
  match paths with
  | [] => ret None
  | path :: rest =>
      let feed := base ++ path in
      r <- http_head feed ;;
      match r with
      | None => probe_well_known base rest
      | Some resp =>
          let ct := lower (match content_type resp with
                           | Some c => c
                           | None => ""
                           end) in
          if (status_code resp =? 200)%Z && feed_content_type ct
          then ret (Some feed)
          else probe_well_known base rest
      end
  end.

Definition discover_feed_well_known (u : string) : E (option string) :=
  parsed <-! eval (urlparse u) ;;
  run (probe_well_known (scheme parsed ++ "://" ++ netloc parsed)
                        WELL_KNOWN_FEED_PATHS).

(** The loop of [discover_feed_platform] over the pattern table. *)
Fixpoint probe_platforms (domain u : string)
         (patterns : list (string * (string -> string))) : M (option string) :=
  match patterns with
  | [] => ret None
  | (platform_domain, make_feed_url) :: rest =>
      if contains platform_domain domain then
        let feed := make_feed_url u in
        r <- http_head feed ;;
        match r with
        | Some resp =>
            if (status_code resp =? 200)%Z then ret (Some feed)
            else probe_platforms domain u rest
        | None => probe_platforms domain u rest
        end
      else probe_platforms domain u rest
  end.

Definition discover_feed_platform (u : string) : E (option string) :=
  domain <-! eval (domain_of u) ;;
  run (probe_platforms domain u PLATFORM_FEED_PATTERNS).

Definition discover_feed (u : string) : E (option string) :=
  f <-! discover_feed_from_html u ;;
  if truthy f then retE f else
  f <-! discover_feed_platform u ;;
  if truthy f then retE f else
  f <-! discover_feed_well_known u ;;
  if truthy f then retE f else retE None.

(** *** EntryFilter *)

(** One round of the loop of [parse_feed_date]: [if t:] holds for a tuple
    that is there and not empty; a failed conversion falls through. *)
Definition attr_date (t : option struct_time) : option Z :=
  match t with
  | Some ((_ :: _) as tm) => datetime_of tm
  | _ => None
  end.

Definition parse_feed_date (e : feed_entry) : option Z :=
  match attr_date (published_parsed e) with
  | Some d => Some d
  | None => attr_date (updated_parsed e)
  end.

Definition _clean_summary (raw : string) : string :=
  let clean := strip (soup_get_text raw) in
  let clean := sub_ws false clean in
  if (300 <? String.length clean)%nat then take 300 clean ++ "..." else clean.

(** [entry_date and entry_date < cutoff]; a [datetime] is never falsy. *)
Definition before_cutoff (entry_date : option Z) (cutoff : Z) : bool :=
  match entry_date with
  | Some d => (d <? cutoff)%Z
  | None => false
  end.

Definition get_default (o : option string) (d : string) : string :=
  match o with Some s => s | None => d end.

Definition make_entry (e : feed_entry) (entry_date : option Z) : entry :=
  mk_entry (get_default (fe_title e) "Untitled")
           (get_default (fe_link e) "")
           entry_date
           (_clean_summary (get_default (fe_summary e) "")).

(** The [for entry in feed.entries] loop. *)
Fixpoint collect_entries (es : list feed_entry) (cutoff : Z) : list entry :=
  match es with
  | [] => []
  | e :: rest =>
      let entry_date := parse_feed_date e in
      if before_cutoff entry_date cutoff
      then collect_entries rest cutoff
      else make_entry e entry_date :: collect_entries rest cutoff
  end.

Definition entries_of_feed (feed : parsed_feed) (cutoff : Z) : list entry :=
  if bozo feed && match feed_entries feed with [] => true | _ => false end
  then []
  else collect_entries (feed_entries feed) cutoff.

Definition fetch_feed_entries (f : string) (cutoff : Z) : M (list entry) :=
  feed <- feed_parse f ;;
  ret (entries_of_feed feed cutoff).

(** *** Screenshot *)

(** The file of a screenshot, relative to the directory of the script. *)
Definition screenshot_path (domain day : string) : string :=
  "data/screenshots/" ++ domain ++ "_" ++ day ++ ".png".

(** [Capture u] records the call [take_screenshot(u)].  [domain_of(url)]
    stands before the [try] and may raise. *)
Definition take_screenshot (u : string) : E (option string) :=
  fun s =>
    let tr := (trace s ++ [Capture u])%list in
    if negb (playwright_installed (world s))
    then (Some None, mk_state (world s) tr)
    else
      match domain_of u with
      | None => (None, mk_state (world s) tr)
      | Some domain =>
          let filepath := screenshot_path domain (today (world s)) in
          let (ok, w) := page_screenshot u filepath (world s) in
          (Some (if ok then Some filepath else None), mk_state w tr)
      end.

(** *** SourceCrawler *)

Definition empty_record (nm : string) (us : list string) : crawl_record :=
  mk_record nm us None None [] [].

(** The tail of the loop body of [crawl_source], from [# Fallback to
    screenshot] on. *)
Definition screenshot_fallback (u : string) (result : crawl_record)
  : E crawl_record :=
  p <-! take_screenshot u ;;
  match p with
  | Some path => if truthy p then retE (add_screenshot result path)
                 else retE result
  | None => retE result
  end.

(** The body of the [for url in urls] loop of [crawl_source]. *)
Definition crawl_url (cutoff : Z) (u : string) (result : crawl_record)
  : E crawl_record :=
  skip <-! eval (should_skip u) ;;
  if skip then retE result else
  f <-! discover_feed u ;;
  match f with
  | Some fu =>
      if truthy f then
        es <-! run (fetch_feed_entries fu cutoff) ;;
        match es with
        | _ :: _ => retE (set_rss result fu es)
        | [] => screenshot_fallback u result
        end
      else screenshot_fallback u result
  | None => screenshot_fallback u result
  end.

(** The body of the loop of the RSS-only branch of [main]. *)
Definition rss_only_url (cutoff : Z) (u : string) (result : crawl_record)
  : E crawl_record :=
  skip <-! eval (should_skip u) ;;
  if skip then retE result else
  f <-! discover_feed u ;;
  match f with
  | Some fu =>
      if truthy f then
        es <-! run (fetch_feed_entries fu cutoff) ;;
        match es with
        | _ :: _ => retE (set_rss result fu es)
        | [] => retE result
        end
      else retE result
  | None => retE result
  end.

Fixpoint for_urls (body : string -> crawl_record -> E crawl_record)
         (us : list string) (result : crawl_record) : E crawl_record :=
  match us with
  | [] => retE result
  | u :: rest => r <-! body u result ;; for_urls body rest r
  end.

Definition crawl_source (nm : string) (us : list string) (cutoff : Z)
  : E crawl_record :=
  r <-! for_urls (crawl_url cutoff) us (empty_record nm us) ;;
  retE (default_method r "failed").

(** The [if args.no_screenshots:] branch of the loop of [main]. *)
Definition crawl_rss_only (nm : string) (us : list string) (cutoff : Z)
  : E crawl_record :=
  r <-! for_urls (rss_only_url cutoff) us (empty_record nm us) ;;
  retE (default_method r "no_feed").

(** *** CrawlSession *)

Definition crawl_one (no_screenshots : bool) (cutoff : Z) (src : source)
  : E crawl_record :=
  if no_screenshots
  then crawl_rss_only (name src) (urls src) cutoff
  else crawl_source (name src) (urls src) cutoff.

(** The [for source in sources] loop of [main]. *)
Fixpoint crawl_all (no_screenshots : bool) (cutoff : Z)
         (sources : list source) (results : list crawl_record)
  : E (list crawl_record) :=
  match sources with
  | [] => retE results
  | src :: rest =>
      r <-! crawl_one no_screenshots cutoff src ;;
      crawl_all no_screenshots cutoff rest (results ++ [r])
  end.

End Crawler.

Definition method_is (m : string) (r : crawl_record) : bool :=
  match method r with
  | Some s => String.eqb s m
  | None => false
  end.

Definition method_in (ms : list string) (r : crawl_record) : bool :=
  match method r with
  | Some s => str_in s ms
  | None => false
  end.

(** [sum(1 for r in results if ...)] *)
Definition count_if (p : crawl_record -> bool) (results : list crawl_record)
  : nat :=
  list_sum (map (fun r => if p r then 1 else 0) results).

Record summary_counts := mk_summary {
  rss_count : nat;
  screenshot_count : nat;
  failed_count : nat;
  total_entries : nat
}.

(** The summary at the end of [main]. *)
Definition summarize (results : list crawl_record) : summary_counts :=
  mk_summary
    (count_if (method_is "rss") results)
    (count_if (method_is "screenshot") results)
    (count_if (method_in ["failed"; "no_feed"]) results)
    (list_sum (map (fun r => List.length (new_entries r)) results)).

(** [main] on the text of [links.txt], the flag [--no-screenshots] and the
    cutoff: the records written to the state file and the summary. *)
Definition main {W : Type} `{Collaborators W} (links : string)
           (no_screenshots : bool) (cutoff : Z)
  : state W -> option (list crawl_record * summary_counts) * state W :=
  bindE (crawl_all no_screenshots cutoff (parse_links_file links) [])
        (fun results => retE (results, summarize results)).

(** ** Predicates of the specification *)

Section Predicates.

Context {W : Type} `{Collaborators W}.

(** An entry is kept unless it has a date before the cutoff. *)
Definition kept (cutoff : Z) (e : feed_entry) : bool :=
  negb (before_cutoff (parse_feed_date e) cutoff).

End Predicates.

(** No whitespace at the start, and every whitespace character is a single
    space ([prev_ws] tells that a whitespace character comes just before). *)
Fixpoint tidy (prev_ws : bool) (s : string) : bool :=
  match s with
  | EmptyString => true
  | String c s' =>
      if isspace c
      then negb prev_ws && Ascii.eqb c " " && tidy true s'
      else tidy false s'
  end.

(** No whitespace at the end. *)
Fixpoint ends_clean (s : string) : bool :=
  match s with
  | EmptyString => true
  | String c s' =>
      match s' with
      | EmptyString => negb (isspace c)
      | String _ _ => ends_clean s'
      end
  end.

Definition whitespace_normalized (s : string) : bool :=
  tidy true s && ends_clean s.

(** The text a summary is cut from. *)
Definition normalized_text {W : Type} `{Collaborators W} (raw : string)
  : string :=
  sub_ws false (strip (soup_get_text raw)).

(** Every summary of the entries has at most [n] characters. *)
Definition summaries_within (n : nat) (es : list entry) : Prop :=
  Forall (fun e => String.length (summary e) <= n) es.

(** *** The timestamp of an entry in the words of the specification *)

Section SpecTimestamp.

Context {W : Type} `{Collaborators W}.

(** The updated field as an instant: absent when the field is missing (an
    empty tuple, which no feed gives, counts as missing) or does not
    convert. *)
Definition spec_updated (e : feed_entry) : option Z :=
  match updated_parsed e with
  | Some (y :: tm) => datetime_of (y :: tm)
  | _ => None
  end.

(** The published field first, then the updated field; a field that does
    not convert is treated as absent. *)
Definition spec_timestamp (e : feed_entry) : option Z :=
  match published_parsed e with
  | Some (y :: tm) =>
      match datetime_of (y :: tm) with
      | Some d => Some d
      | None => spec_updated e
      end
  | _ => spec_updated e
  end.

(** Excluded: the timestamp is there and strictly earlier than the cutoff. *)
Definition spec_excluded (cutoff : Z) (e : feed_entry) : bool :=
  match spec_timestamp e with
  | Some d => (d <? cutoff)%Z
  | None => false
  end.

End SpecTimestamp.

(** *** Traces *)

Section TracePredicates.

Context {W : Type} `{Collaborators W}.

(** Run from any state, [m] only appends to the trace, and [P] relates its
    result to the events it appends. *)
Definition emits {A : Type} (m : @M W A) (P : A -> list event -> Prop)
  : Prop :=
  forall s, exists tr,
    trace (snd (m s)) = (trace s ++ tr)%list /\ P (fst (m s)) tr.

(** The same for a computation that may raise; [P None] is about the events
    appended up to the raise. *)
Definition emitsE {A : Type} (m : @E W A)
           (P : option A -> list event -> Prop) : Prop :=
  forall s, exists tr,
    trace (snd (m s)) = (trace s ++ tr)%list /\ P (fst (m s)) tr.

(** The host is one of a known platform. *)
Definition on_platform (domain : string) : bool :=
  existsb (fun p => contains (fst p) domain) PLATFORM_FEED_PATTERNS.

(** The feed URL both platform rules build. *)
Definition platform_candidate (u : string) : string :=
  rstrip_char "/" u ++ "/feed".



(** The URLs the strategies probe with HEAD for the URL [u]: the platform
    candidate, and the well-known paths on the scheme and host of [u]. *)
Definition derived_probe (u v : string) : Prop :=
  v = platform_candidate u
  \/ exists parsed path,
      urlparse u = Some parsed
      /\ In path WELL_KNOWN_FEED_PATHS
      /\ v = (scheme parsed ++ "://" ++ netloc parsed) ++ path.

(** A HEAD probe derived from [u]. *)
Definition probe_of (u : string) (e : event) : Prop :=
  exists v st, e = Head v st /\ derived_probe u v.

(** What may follow [Get u] while [u] is processed: HEAD probes derived
    from [u], the feed retrieval, and, in full mode, a screenshot of [u]
    itself. *)
Definition follows (no_screenshots : bool) (u : string) (e : event) : Prop :=
  match e with
  | Get _ => False
  | Head v _ => derived_probe u v
  | FeedFetch _ => True
  | Capture v => no_screenshots = false /\ v = u
  end.

(** An event that belongs to the processing of the URL [u]. *)
Definition request_of (no_screenshots : bool) (u : string) (e : event)
  : Prop :=
  match e with
  | Get v => v = u
  | Head v _ => derived_probe u v
  | FeedFetch _ => True
  | Capture v => no_screenshots = false /\ v = u
  end.

(** The requests of the processing of one URL. *)
Definition url_requests (no_screenshots : bool) (u : string)
           (seg : list event) : Prop :=
  exists rest, seg = Get u :: rest /\ Forall (follows no_screenshots u) rest.


(** The URLs of a list that are processed. *)
Definition crawled (us : list string) : list string :=
  filter (fun u => match should_skip u with
                   | Some false => true
                   | _ => false
                   end) us.

(** The answers of the world to HEAD requests on the URLs of a list, made
    one after the other from the world [w]. *)
Fixpoint head_answers (vs : list string) (w : W) : list (option response) :=
  match vs with
  | [] => []
  | v :: rest =>
      let (r, w') := requests_head v w in r :: head_answers rest w'
  end.

(** The test of the well-known strategy on one HEAD answer: status 200 and
    a content type of a feed. *)
Definition well_known_accepts (r : option response) : bool :=
  match r with
  | None => false
  | Some resp =>
      (status_code resp =? 200)%Z
      && feed_content_type (lower (get_default (content_type resp) ""))
  end.

(** The first path of the list whose answer the strategy accepts. *)
Fixpoint first_accepted (base : string) (paths : list string)
         (answers : list (option response)) : option string :=
  match paths, answers with
  | path :: paths', r :: answers' =>
      if well_known_accepts r then Some (base ++ path)
      else first_accepted base paths' answers'
  | _, _ => None
  end.

End TracePredicates.

(** What the platform loop leaves: HEAD requests on the candidate only, and
    the candidate as result exactly when one of them answered 200. *)
Definition platform_post (cand : string) (probed : bool)
           (r : option string) (tr : list event) : Prop :=
  Forall (fun e => exists st, e = Head cand st) tr
  /\ (r = Some cand <-> In (Head cand (Some 200%Z)) tr)
  /\ (r = None \/ r = Some cand)
  /\ (probed = true -> tr <> []).

(** The four values of the method of a finished record. *)
Definition valid_method (m : option string) : Prop :=
  m = Some "rss" \/ m = Some "screenshot" \/ m = Some "failed"
  \/ m = Some "no_feed".

(** ** Shapes of records and of request sequences *)

Definition is_head (e : event) : bool :=
  match e with Head _ _ => true | _ => false end.

Definition is_capture (e : event) : bool :=
  match e with Capture _ => true | _ => false end.

(** The three shapes of a record; [unset] is the method of a record for
    which nothing was found. *)
Definition record_shape (unset : option string) (r : crawl_record) : Prop :=
  (method r = unset /\ feed_url r = None /\ new_entries r = []
   /\ screenshots r = [])
  \/ (method r = Some "rss" /\ feed_url r <> None /\ new_entries r <> [])
  \/ (method r = Some "screenshot" /\ feed_url r = None
      /\ new_entries r = [] /\ screenshots r <> []).

(** What a run of the well-known loop leaves: HEAD requests on the paths in
    order, up to the first that is accepted. *)
Definition well_known_post (base : string) (paths : list string)
           (r : option string) (tr : list event) : Prop :=
  forallb is_head tr = true
  /\ map event_url tr
     = map (fun path => base ++ path) (firstn (List.length tr) paths)
  /\ (r = None -> List.length tr = List.length paths)
  /\ (forall f, r = Some f ->
        exists pre, tr = (pre ++ [Head f (Some 200%Z)])%list).

(** An entry is not older than the cutoff, as far as it is dated. *)
Definition fresh (cutoff : Z) (e : entry) : Prop :=
  match date e with
  | Some d => (cutoff <= d)%Z
  | None => True
  end.

Section LoopPredicates.

Context {W : Type} `{Collaborators W}.

(** What one round of the loop over the URLs may do to the record: leave
    it, record a feed with the entries it gave, or, in full mode, add the
    screenshot of the URL. *)
Definition round_result (no_screenshots : bool) (cutoff : Z) (u : string)
           (r r' : crawl_record) : Prop :=
  r' = r
  \/ (should_skip u = Some false
      /\ exists f (s' : state W),
          truthy (Some f) = true
          /\ fst (fetch_feed_entries f cutoff s') <> []
          /\ r' = set_rss r f (fst (fetch_feed_entries f cutoff s')))
  \/ (should_skip u = Some false
      /\ no_screenshots = false
      /\ exists domain day,
          domain_of u = Some domain
          /\ r' = add_screenshot r (screenshot_path domain day)).

(** The body of the loop over the URLs in either mode. *)
Definition round_of (no_screenshots : bool) (cutoff : Z)
  : string -> crawl_record -> @E W crawl_record :=
  if no_screenshots then rss_only_url cutoff else crawl_url cutoff.

(** One round of the loop on [u]: it raises at once when [urlparse] rejects
    [u], passes over a skip-listed [u], and processes any other. *)
Definition round_post (no_screenshots : bool) (cutoff : Z) (u : string)
           (r : crawl_record) (r' : option crawl_record) (tr : list event)
  : Prop :=
  match should_skip u with
  | None => r' = None /\ tr = []
  | Some true => r' = Some r /\ tr = []
  | Some false =>
      url_requests no_screenshots u tr
      /\ exists r1, r' = Some r1 /\ round_result no_screenshots cutoff u r r1
  end.

(** The loop over the URLs [us]: the URLs [done] it got through, one group
    of requests for each of them that is not skipped, and either the record
    with the invariant, or a raise at the first URL [urlparse] rejects. *)
Definition loop_post (no_screenshots : bool) (Inv : crawl_record -> Prop)
           (us : list string) (r' : option crawl_record) (tr : list event)
  : Prop :=
  exists done segs,
    tr = concat segs
    /\ Forall2 (url_requests no_screenshots) (crawled done) segs
    /\ Forall (fun u => urlparse u <> None) done
    /\ match r' with
       | Some r1 => done = us /\ Inv r1
       | None => exists bad rest,
           us = (done ++ bad :: rest)%list /\ urlparse bad = None
       end.

(** What the loop over the URLs [us] of the source named [nm] keeps of the
    record: its shape, the name and the URLs, entries that are not older
    than the cutoff, screenshots of URLs of the source that are not
    skipped, and none at all in RSS-only mode. *)
Definition record_inv (no_screenshots : bool) (cutoff : Z) (nm : string)
           (us : list string) (r : crawl_record) : Prop :=
  record_shape None r
  /\ res_name r = nm
  /\ res_urls r = us
  /\ Forall (fresh cutoff) (new_entries r)
  /\ Forall (fun p => exists u domain day,
                 In u us /\ should_skip u = Some false
                 /\ domain_of u = Some domain
                 /\ p = screenshot_path domain day)
            (screenshots r)
  /\ (no_screenshots = true -> screenshots r = []).

(** The record after the loop: the default method is set. *)
Definition finished (no_screenshots : bool) (cutoff : Z) (nm : string)
           (us : list string) (r : crawl_record) : Prop :=
  exists r0,
    record_inv no_screenshots cutoff nm us r0
    /\ r = default_method r0 (if no_screenshots then "no_feed" else "failed").


(** Every URL of the source is one [urlparse] accepts. *)
Definition parseable (us : list string) : Prop :=
  Forall (fun u => urlparse u <> None) us.

End LoopPredicates.

(** ** A concrete world

    A small deterministic instance of the collaborators, used to run the
    crawler on concrete inputs.  Its answers depend on the URL only. *)

Module Demo.

(** [scheme://host/...] split the way [urlparse] splits a plain URL. *)
Fixpoint find_scheme (acc s : string) : option (string * string) :=
  if String.prefix "://" s then Some (acc, drop 3 s)
  else match s with
       | EmptyString => None
       | String c s' => find_scheme (acc ++ String c EmptyString) s'
       end.

Fixpoint take_host (s : string) : string :=
  match s with
  | EmptyString => EmptyString
  | String c s' =>
      if Ascii.eqb c "/" || Ascii.eqb c "?" || Ascii.eqb c "#"
      then EmptyString
      else String c (take_host s')
  end.

(** A host with one bracket but not the other is the "Invalid IPv6 URL"
    [ValueError]. *)
Definition plain_urlparse (u : string) : option url_parts :=
  match find_scheme EmptyString u with
  | Some (sc, rest) =>
      let host := take_host rest in
      if xorb (contains "[" host) (contains "]" host) then None
      else Some (mk_parts sc host)
  | None => Some (mk_parts "" "")
  end.

(** Text extraction for markup made of tags and text: the text nodes. *)
Fixpoint text_nodes (in_tag : bool) (cur s : string) : list string :=
  match s with
  | EmptyString => if is_empty cur then [] else [cur]
  | String c s' =>
      if in_tag
      then text_nodes (negb (Ascii.eqb c ">")) EmptyString s'
      else if Ascii.eqb c "<"
           then (if is_empty cur then [] else [cur])
                  ++ text_nodes true EmptyString s'
           else text_nodes false (cur ++ String c EmptyString) s'
  end.

Definition get_text (s : string) : string :=
  String.concat " " (text_nodes false EmptyString s).

Definition page (body : string) : option response :=
  Some (mk_response 200 (Some "text/html") body).

Definition get (u : string) (w : unit) : option response * unit :=
  (if String.eqb u "https://alpha.example/blog" then page "alpha"
   else if String.eqb u "https://www.beta.example/" then page "beta"
   else if String.eqb u "https://gamma.example/" then page "gamma"
   else if String.eqb u "https://delta.example/" then page "delta"
   else None, w).

Definition rss_link (href : string) : link_tag :=
  mk_link (Some "application/rss+xml") (Some href).

Definition alternate_links (body : string) : list link_tag :=
  if String.eqb body "alpha"
  then [mk_link (Some "text/html") (Some "/fr/");
        mk_link (Some "application/RSS+xml") (Some "/feed.xml")]
  else if String.eqb body "beta"
  then [mk_link (Some "application/atom+xml")
                (Some "https://www.beta.example/atom.xml")]
  else if String.eqb body "gamma"
  then [rss_link "https://nitter.net/gamma/rss"]
  else if String.eqb body "delta"
  then [rss_link "https://delta.example/rss"]
  else [].

Definition head (u : string) (w : unit) : option response * unit :=
  (if String.eqb u "https://medium.com/@ada/feed"
   then Some (mk_response 204 None "")
   else if String.eqb u "https://ada.substack.com/feed"
   then Some (mk_response 200 (Some "text/html") "")
   else if String.eqb u "https://c.example/feed"
   then Some (mk_response 200 (Some "text/html") "")
   else if String.eqb u "https://c.example/rss.xml"
   then Some (mk_response 200 (Some "Application/RSS+XML; charset=utf-8") "")
   else None, w).

Definition days_from_civil (y m d : Z) : Z :=
  let y := if (m <=? 2)%Z then (y - 1)%Z else y in
  let era := (y / 400)%Z in
  let yoe := (y - era * 400)%Z in
  let mp := if (m <=? 2)%Z then (m + 9)%Z else (m - 3)%Z in
  let doy := ((153 * mp + 2) / 5 + d - 1)%Z in
  let doe := (yoe * 365 + yoe / 4 - yoe / 100 + doy)%Z in
  (era * 146097 + doe - 719468)%Z.

(** Seconds since the epoch of a UTC time tuple; years outside 1..9999 are
    out of range for a [datetime]. *)
Definition utc_datetime_of (t : struct_time) : option Z :=
  match t with
  | [y; m; d; hh; mm; ss; _; _; _] =>
      if ((1 <=? y) && (y <=? 9999))%Z
      then Some (days_from_civil y m d * 86400 + hh * 3600 + mm * 60 + ss)%Z
      else None
  | _ => None
  end.

Definition on_day (y m d : Z) : option struct_time :=
  Some [y; m; d; 0; 0; 0; 0; 1; 0]%Z.

Definition post (t : string) (published updated : option struct_time)
  : feed_entry :=
  mk_feed_entry (Some t) (Some ("https://posts.example/" ++ t))
                (Some ("<p>About " ++ t ++ "</p>")) published updated.

Definition long_summary : string :=
  "<p>Hello   world</p>" ++ repeat_char "x" 400.

Definition feed (u : string) (w : unit) : parsed_feed * unit :=
  (if String.eqb u "https://alpha.example/feed.xml"
   then mk_feed false [post "march" (on_day 2025 3 1) None;
                       post "old" (on_day 2024 1 1) (on_day 2025 4 1);
                       post "february" None (on_day 2025 2 1)]
   else if String.eqb u "https://www.beta.example/atom.xml"
   then mk_feed false [post "undated" None None]
   else if String.eqb u "https://delta.example/rss"
   then mk_feed false [post "stale" (on_day 2023 5 5) None]
   else if String.eqb u "https://verbose.example/feed"
   then mk_feed false [mk_feed_entry (Some "long") None (Some long_summary)
                                     None None]
   else mk_feed true [], w).

#[global] Instance world : Collaborators unit := {|
  urlparse := plain_urlparse;
  requests_get := get;
  requests_head := head;
  soup_alternate_links := alternate_links;
  soup_get_text := get_text;
  feedparser_parse := feed;
  datetime_of := utc_datetime_of;
  playwright_installed := fun _ => true;
  today := fun _ => "2025-06-01";
  page_screenshot := fun _ _ w => (true, w)
|}.

Definition start : state unit := mk_state tt [].

(** 2025-01-01T00:00:00Z *)
Definition cutoff : Z := 1735689600.

(** A catalog with two name lines in one block, and a regular one. *)
Definition two_names : string :=
  "Ada" ++ String "010" "https://a.example/"
  ++ String "010" "Bob" ++ String "010" "https://b.example/" ++ String "010" "".

Definition tidy_catalog : string :=
  "Ada" ++ String "010" " https://a.example/ "
  ++ String "010" "https://ada.example/" ++ String "010" (String "010"
  "https://c.example/" ++ String "010" (String "010" "Only a name")).


End Demo.

(** * Properties *)

Open Scope nat_scope.

(** ** The catalog parser *)

Lemma block_state_snoc (cur : list string) (line : string) :
  block_state (cur ++ [line]) = on_line (block_state cur) line.
Proof.
  unfold block_state. rewrite fold_left_app. reflexivity.
Qed.

Lemma flush_block_nil (cur : list string) :
  flat_map (fun b => flush (block_state b))
           match cur with [] => [] | _ :: _ => [cur] end
  = flush (block_state cur).
Proof.
  destruct cur; simpl.
  - reflexivity.
  - apply app_nil_r.
Qed.

(** The loop, block by block: each block yields what [current] holds at its
    end, if it holds a URL. *)
Lemma parse_lines_blocks (lines : list string) :
  forall cur entries,
    parse_lines lines entries (block_state cur)
    = (entries ++ flat_map (fun b => flush (block_state b))
                           (split_blocks cur lines))%list.
Proof.
  induction lines as [|raw rest IH]; intros cur entries; simpl.
  - now rewrite flush_block_nil.
  - destruct (is_empty (strip raw)).
    + change None with (block_state []).
      rewrite IH, flat_map_app, flush_block_nil, app_assoc. reflexivity.
    + rewrite <- block_state_snoc. apply IH.
Qed.

Lemma filter_all {A : Type} (p : A -> bool) (l : list A) :
  forallb p l = true -> filter p l = l.
Proof.
  induction l as [|a l IH]; simpl; intros Hall.
  - reflexivity.
  - apply andb_prop in Hall as [Ha Hl]. rewrite Ha, IH; auto.
Qed.

Lemma fold_url_lines (rest : list string) :
  forall c, forallb is_url rest = true ->
    fold_left on_line rest (Some c)
    = Some (mk_source (name c) (urls c ++ rest)).
Proof.
  induction rest as [|l rest IH]; intros [nm us] Hall; simpl in *.
  - now rewrite app_nil_r.
  - apply andb_prop in Hall as [Hl Hrest].
    unfold on_line at 2. rewrite Hl. rewrite IH by assumption.
    simpl. now rewrite <- app_assoc.
Qed.

Lemma regular_block_source (b : list string) :
  regular_block b = true -> flush (block_state b) = spec_source b.
Proof.
  destruct b as [|first rest]; [reflexivity|].
  unfold regular_block, block_state; simpl. intros Hall.
  unfold on_line at 2. destruct (is_url first) eqn:Hfirst.
  - rewrite fold_url_lines by assumption. simpl.
    now rewrite (filter_all _ _ Hall).
  - rewrite fold_url_lines by assumption. simpl.
    rewrite (filter_all _ _ Hall). now destruct rest.
Qed.

Lemma flat_map_ext_forallb {A B : Type} (p : A -> bool) (f g : A -> list B)
      (l : list A) :
  (forall a, p a = true -> f a = g a) ->
  forallb p l = true -> flat_map f l = flat_map g l.
Proof.
  intros Hfg. induction l as [|a l IH]; simpl; intros Hall.
  - reflexivity.
  - apply andb_prop in Hall as [Ha Hl]. now rewrite Hfg, IH.
Qed.

(** Every block ends up as the loop leaves [current]: the last name line of
    the block names the source, and only the URL lines after it are kept. *)
Lemma parse_links_file_blocks (links : string) :
  parse_links_file links
  = flat_map (fun b => flush (block_state b)) (blocks links).
Proof.
  unfold parse_links_file, blocks.
  change None with (block_state []).
  now rewrite parse_lines_blocks.
Qed.

(** C2, as stated, fails: a second name line inside a block restarts the
    source, so the first name and the URLs before the second are lost. *)
Lemma parse_links_first_name_counterexample :
  blocks Demo.two_names
  = [["Ada"; "https://a.example/"; "Bob"; "https://b.example/"]]
  /\ spec_parse_links Demo.two_names
     = [mk_source "Ada" ["https://a.example/"; "https://b.example/"]]
  /\ parse_links_file Demo.two_names = [mk_source "Bob" ["https://b.example/"]]
  /\ parse_links_file Demo.two_names <> spec_parse_links Demo.two_names.
Proof.
  repeat split; try reflexivity.
  vm_compute. discriminate.
Qed.

(** C2 (amended): for a catalog whose blocks have a name line, if any, only
    as their first line, [parse_links_file] yields one source per block that
    has a URL: named by the first line when that is not a URL and by the
    empty string when it is, holding all URL lines of the block in order; a
    block without URL yields no source. *)
Theorem parse_links_file_regular (links : string) :
  regular_catalog links = true ->
  parse_links_file links = spec_parse_links links.
Proof.
  intros Hreg. rewrite parse_links_file_blocks. unfold spec_parse_links.
  apply flat_map_ext_forallb with (p := regular_block); [|exact Hreg].
  intros b Hb. now apply regular_block_source.
Qed.

Lemma parse_links_file_regular_witness :
  regular_catalog Demo.tidy_catalog = true
  /\ parse_links_file Demo.tidy_catalog = spec_parse_links Demo.tidy_catalog.
Proof.
  split; [reflexivity|].
  apply (parse_links_file_regular Demo.tidy_catalog). reflexivity.
Defined.


(** ** Sources of the catalog *)

Lemma split_blocks_lines (P : string -> Prop) (lines : list string) :
  (forall raw, In raw lines -> P (strip raw)) ->
  forall cur, Forall P cur -> Forall (Forall P) (split_blocks cur lines).
Proof.
  induction lines as [|raw rest IH]; intros Hlines cur Hcur; simpl.
  - destruct cur; [constructor | constructor; [exact Hcur | constructor]].
  - assert (Hrest : forall r, In r rest -> P (strip r))
      by (intros r Hr; apply Hlines; now right).
    destruct (is_empty (strip raw)).
    + apply Forall_app. split.
      * destruct cur; [constructor | constructor; [exact Hcur | constructor]].
      * apply IH; [exact Hrest | constructor].
    + apply IH; [exact Hrest|].
      apply Forall_app. split; [exact Hcur|].
      repeat constructor. apply Hlines. now left.
Qed.

Lemma block_state_urls (b : list string) :
  forall c, block_state b = Some c ->
            Forall (fun u => is_url u = true /\ In u b) (urls c).
Proof.
  induction b as [|l b IH] using rev_ind; intros c.
  - discriminate.
  - rewrite block_state_snoc. unfold on_line.
    destruct (is_url l) eqn:Hl; intros Hc; inversion Hc; subst; clear Hc;
      simpl; [|constructor].
    apply Forall_app. split.
    + destruct (block_state b) as [c0|]; [|constructor].
      eapply Forall_impl; [|apply IH; reflexivity].
      intros u [Hu Hin]. split; [exact Hu|]. apply in_or_app. now left.
    + repeat constructor; [exact Hl|]. apply in_or_app. right. now left.
Qed.

(** X1: Every source of the catalog has at least one URL, and each of its URLs
    is a line of the file, stripped, that starts with [http://] or
    [https://]. *)
Theorem parse_links_file_sources (links : string) :
  Forall (fun src =>
            urls src <> []
            /\ Forall (fun u => is_url u = true
                                /\ exists raw, In raw (file_lines links)
                                               /\ u = strip raw)
                      (urls src))
         (parse_links_file links).
Proof.
  rewrite parse_links_file_blocks. apply Forall_flat_map.
  pose proof (split_blocks_lines
                (fun l => exists raw, In raw (file_lines links) /\ l = strip raw)
                (file_lines links)) as Hblocks.
  eapply Forall_impl; [|apply Hblocks; [eauto | constructor]].
  intros b Hb. unfold flush.
  destruct (block_state b) as [c|] eqn:Hc; [|constructor].
  destruct (urls c) as [|u us] eqn:Hus; [constructor|].
  repeat constructor; [rewrite Hus; discriminate|].
  eapply Forall_impl; [|apply block_state_urls; exact Hc].
  intros v [Hv Hin]. split; [exact Hv|].
  rewrite Forall_forall in Hb. now apply Hb.
Qed.

Lemma block_state_restart (pre us : list string) (nm : string) :
  is_url nm = false -> forallb is_url us = true ->
  block_state (pre ++ nm :: us) = Some (mk_source nm us).
Proof.
  intros Hnm Hus. unfold block_state. rewrite fold_left_app. simpl.
  unfold on_line at 2. rewrite Hnm.
  now rewrite fold_url_lines.
Qed.

(** X2: A name line starts the source anew: of a block, only the last name line
    and the URL lines after it make the source; what the block held before
    is dropped. *)
Theorem parse_links_file_last_name (links : string) (pre us : list string)
        (nm : string) :
  In (pre ++ nm :: us)%list (blocks links) ->
  is_url nm = false ->
  forallb is_url us = true ->
  us <> [] ->
  In (mk_source nm us) (parse_links_file links)
  /\ flush (block_state (pre ++ nm :: us)) = [mk_source nm us].
Proof.
  intros Hin Hnm Hus Hne.
  assert (Hflush : flush (block_state (pre ++ nm :: us)) = [mk_source nm us]).
  { rewrite block_state_restart by assumption. simpl.
    destruct us; [congruence | reflexivity]. }
  split; [|exact Hflush].
  rewrite parse_links_file_blocks. apply in_flat_map.
  exists (pre ++ nm :: us)%list. split; [exact Hin|].
  rewrite Hflush. now left.
Qed.

Lemma parse_links_file_last_name_witness :
  (In (["Ada"; "https://a.example/"] ++ "Bob" :: ["https://b.example/"])%list
      (blocks Demo.two_names)
   /\ is_url "Bob" = false
   /\ forallb is_url ["https://b.example/"] = true
   /\ ["https://b.example/"] <> [])
  /\ In (mk_source "Bob" ["https://b.example/"])
        (parse_links_file Demo.two_names).
Proof.
  split.
  - repeat split; try reflexivity; [now left | discriminate].
  - apply (parse_links_file_last_name Demo.two_names
             ["Ada"; "https://a.example/"] ["https://b.example/"] "Bob").
    + now left.
    + reflexivity.
    + reflexivity.
    + discriminate.
Defined.
(** ** The entry filter *)

Section EntryFilter.

Context {W : Type} `{Collaborators W}.

Lemma collect_entries_filter (es : list feed_entry) (cutoff : Z) :
  collect_entries es cutoff
  = map (fun e => make_entry e (parse_feed_date e)) (filter (kept cutoff) es).
Proof.
  induction es as [|e es IH]; simpl.
  - reflexivity.
  - unfold kept at 1.
    destruct (before_cutoff (parse_feed_date e) cutoff); simpl;
      now rewrite IH.
Qed.

Lemma entries_of_feed_filter (feed : parsed_feed) (cutoff : Z) :
  entries_of_feed feed cutoff
  = map (fun e => make_entry e (parse_feed_date e))
        (filter (kept cutoff) (feed_entries feed)).
Proof.
  unfold entries_of_feed.
  destruct (bozo feed); destruct (feed_entries feed) as [|e es]; simpl;
    try reflexivity; apply (collect_entries_filter (e :: es)).
Qed.

Lemma fetch_feed_entries_run (f : string) (cutoff : Z) (s : state W) :
  fetch_feed_entries f cutoff s
  = (entries_of_feed (fst (feedparser_parse f (world s))) cutoff,
     mk_state (snd (feedparser_parse f (world s)))
              (trace s ++ [FeedFetch f])).
Proof.
  unfold fetch_feed_entries, bind, feed_parse, ret.
  now destruct (feedparser_parse f (world s)).
Qed.

Lemma kept_spec (cutoff : Z) (e : feed_entry) :
  kept cutoff e = false
  <-> exists d, parse_feed_date e = Some d /\ (d < cutoff)%Z.
Proof.
  unfold kept, before_cutoff. destruct (parse_feed_date e) as [d|].
  - rewrite negb_false_iff, Z.ltb_lt. split.
    + intros Hd. now exists d.
    + intros [d' [Heq Hd]]. now inversion Heq.
  - simpl. split; [discriminate|]. intros [d [Heq _]]. discriminate.
Qed.

(** The derived timestamp: the published field wins when it is there and
    converts; otherwise the updated field, when it is there and converts. *)
Lemma parse_feed_date_order (e : feed_entry) :
  (forall d, attr_date (published_parsed e) = Some d ->
             parse_feed_date e = Some d)
  /\ (attr_date (published_parsed e) = None ->
      parse_feed_date e = attr_date (updated_parsed e))
  /\ (forall tm, datetime_of tm = None ->
                 attr_date (Some tm) = None)
  /\ attr_date None = None.
Proof.
  unfold parse_feed_date. repeat split.
  - intros d Hd. now rewrite Hd.
  - intros Hd. now rewrite Hd.
  - intros tm Htm. destruct tm; simpl; auto.
Qed.

Lemma parse_feed_date_spec (e : feed_entry) :
  parse_feed_date e = spec_timestamp e.
Proof.
  unfold parse_feed_date, spec_timestamp, spec_updated, attr_date.
  destruct (published_parsed e) as [[|y tm]|];
    destruct (updated_parsed e) as [[|y' tm']|]; simpl; try reflexivity;
    now destruct (datetime_of (y :: tm)).
Qed.

Lemma kept_spec_excluded (cutoff : Z) (e : feed_entry) :
  kept cutoff e = negb (spec_excluded cutoff e).
Proof.
  unfold kept, spec_excluded, before_cutoff.
  now rewrite parse_feed_date_spec.
Qed.

(** C1: [fetch_feed_entries] returns, in feed order, the entries of the
    parsed feed that are not excluded, each with its derived timestamp as
    date; an entry is excluded exactly when its derived timestamp is present
    and strictly earlier than the cutoff, and an entry without derivable
    timestamp is included whatever the cutoff.  The derived timestamp is the
    converted published field when that field is there and converts,
    otherwise the converted updated field when that one is there and
    converts, otherwise none. *)
Theorem fetch_feed_entries_cutoff (f : string) (cutoff : Z) (s : state W) :
  let feed := fst (feedparser_parse f (world s)) in
  fst (fetch_feed_entries f cutoff s)
  = map (fun e => make_entry e (spec_timestamp e))
        (filter (fun e => negb (spec_excluded cutoff e)) (feed_entries feed))
  /\ (forall e, spec_excluded cutoff e = true
                <-> exists d, spec_timestamp e = Some d /\ (d < cutoff)%Z)
  /\ (forall e c, spec_timestamp e = None -> spec_excluded c e = false)
  /\ (forall e y tm d,
        published_parsed e = Some (y :: tm) ->
        datetime_of (y :: tm) = Some d ->
        parse_feed_date e = Some d)
  /\ (forall e y tm d,
        (published_parsed e = None \/ published_parsed e = Some []
         \/ exists tm', published_parsed e = Some tm'
                        /\ datetime_of tm' = None) ->
        updated_parsed e = Some (y :: tm) ->
        datetime_of (y :: tm) = Some d ->
        parse_feed_date e = Some d)
  /\ (forall e,
        (published_parsed e = None \/ published_parsed e = Some []
         \/ exists tm', published_parsed e = Some tm'
                        /\ datetime_of tm' = None) ->
        (updated_parsed e = None \/ updated_parsed e = Some []
         \/ exists tm', updated_parsed e = Some tm'
                        /\ datetime_of tm' = None) ->
        parse_feed_date e = None).
Proof.
  intros feed.
  assert (Hpub : forall e,
             (published_parsed e = None \/ published_parsed e = Some []
              \/ exists tm', published_parsed e = Some tm'
                             /\ datetime_of tm' = None) ->
             attr_date (published_parsed e) = None).
  { intros e [-> | [-> | [tm' [-> Hconv]]]]; try reflexivity.
    destruct tm'; [reflexivity | exact Hconv]. }
  split; [|split; [|split; [|split; [|split]]]].
  - rewrite fetch_feed_entries_run. simpl.
    rewrite entries_of_feed_filter.
    rewrite (filter_ext (kept cutoff)
                        (fun e => negb (spec_excluded cutoff e))
                        (kept_spec_excluded cutoff)).
    apply map_ext. intros e. now rewrite parse_feed_date_spec.
  - intros e. unfold spec_excluded.
    destruct (spec_timestamp e) as [d|].
    + rewrite Z.ltb_lt. split.
      * intros Hd. now exists d.
      * intros [d' [Heq Hd]]. now inversion Heq.
    + split; [discriminate|]. intros [d [Heq _]]. discriminate.
  - intros e c Hnone. unfold spec_excluded. now rewrite Hnone.
  - intros e y tm d Hp Hd. unfold parse_feed_date.
    rewrite Hp. simpl. now rewrite Hd.
  - intros e y tm d Hp Hu Hd. unfold parse_feed_date.
    rewrite (Hpub e Hp), Hu. simpl. exact Hd.
  - intros e Hp [Hu | [Hu | [tm' [Hu Hconv]]]]; unfold parse_feed_date;
      rewrite (Hpub e Hp), Hu; try reflexivity.
    destruct tm'; [reflexivity | exact Hconv].
Qed.

End EntryFilter.

(** *** Summaries *)

Lemma length_append (s t : string) :
  String.length (s ++ t) = String.length s + String.length t.
Proof.
  induction s as [|c s IH]; simpl; [reflexivity | now rewrite IH].
Qed.

Lemma length_take (n : nat) :
  forall s, String.length (take n s) = Nat.min n (String.length s).
Proof.
  induction n as [|n IH]; intros [|c s]; simpl; auto.
Qed.

Lemma take_repeat_char (c : ascii) (n m : nat) :
  n <= m -> take n (repeat_char c m) = repeat_char c n.
Proof.
  revert m. induction n as [|n IH]; intros [|m] Hle; simpl; try reflexivity.
  - lia.
  - rewrite IH by lia. reflexivity.
Qed.

Lemma tidy_sub_ws (s : string) :
  forall b, tidy b (sub_ws b s) = true.
Proof.
  induction s as [|c s IH]; intros b; simpl; [reflexivity|].
  destruct (isspace c) eqn:Hc.
  - destruct b; [apply IH|].
    simpl. apply IH.
  - simpl. rewrite Hc. apply IH.
Qed.

Lemma lstrip_starts_clean (s : string) :
  match lstrip s with
  | EmptyString => True
  | String c _ => isspace c = false
  end.
Proof.
  induction s as [|c s IH]; simpl; [exact I|].
  destruct (isspace c) eqn:Hc; [exact IH | exact Hc].
Qed.

Lemma tidy_normalized_start (s : string) :
  match s with
  | EmptyString => True
  | String c _ => isspace c = false
  end ->
  tidy true (sub_ws false s) = true.
Proof.
  destruct s as [|c s]; simpl; [reflexivity|].
  intros Hc. rewrite Hc. simpl. rewrite Hc. apply tidy_sub_ws.
Qed.

Lemma tidy_take (n : nat) :
  forall s b, tidy b s = true -> tidy b (take n s) = true.
Proof.
  induction n as [|n IH]; intros [|c s] b; simpl; auto.
  destruct (isspace c).
  - intros Ht. apply andb_prop in Ht as [Hb Ht].
    rewrite Hb. simpl. now apply IH.
  - apply IH.
Qed.

Lemma tidy_dots (s : string) :
  forall b, tidy b s = true -> tidy b (s ++ "...") = true.
Proof.
  induction s as [|c s IH]; intros b; simpl.
  - reflexivity.
  - destruct (isspace c).
    + intros Ht. apply andb_prop in Ht as [Hb Ht].
      rewrite Hb. simpl. now apply IH.
    + apply IH.
Qed.

Lemma ends_clean_dots (s : string) : ends_clean (s ++ "...") = true.
Proof.
  induction s as [|c s IH]; [reflexivity|].
  change (String c s ++ "...") with (String c (s ++ "...")).
  simpl. destruct (s ++ "...") eqn:Hs; [|exact IH].
  destruct s; discriminate.
Qed.

Lemma ends_clean_rstrip (s : string) : ends_clean (rstrip s) = true.
Proof.
  induction s as [|c s IH]; simpl; [reflexivity|].
  destruct (rstrip s) as [|c' r].
  - destruct (isspace c) eqn:Hc; simpl; [reflexivity | now rewrite Hc].
  - exact IH.
Qed.

Lemma ends_clean_tail (c : ascii) (s : string) :
  ends_clean (String c s) = true ->
  ends_clean s = true /\ (isspace c = true -> s <> EmptyString).
Proof.
  simpl. destruct s as [|c' s'].
  - intros Hc. split; [reflexivity|].
    intros Hws. rewrite Hws in Hc. discriminate.
  - intros Hs. split; [exact Hs | discriminate].
Qed.

Lemma ends_clean_lstrip (s : string) :
  ends_clean s = true -> ends_clean (lstrip s) = true.
Proof.
  induction s as [|c s IH]; [reflexivity|].
  intros Hs. simpl lstrip. destruct (isspace c); [|exact Hs].
  apply IH. now apply ends_clean_tail in Hs.
Qed.

Lemma sub_ws_nonempty (s : string) :
  forall b, ends_clean s = true -> s <> EmptyString ->
            sub_ws b s <> EmptyString.
Proof.
  induction s as [|c s IH]; intros b Hs Hne; [congruence|].
  apply ends_clean_tail in Hs as [Hs Hc]. simpl.
  destruct (isspace c); [|discriminate].
  destruct b; [|discriminate].
  apply IH; auto.
Qed.

Lemma ends_clean_sub_ws (s : string) :
  forall b, ends_clean s = true -> ends_clean (sub_ws b s) = true.
Proof.
  induction s as [|c s IH]; intros b Hs; [reflexivity|].
  apply ends_clean_tail in Hs as [Hs Hc]. simpl sub_ws.
  destruct (isspace c) eqn:Hws.
  - destruct b; [now apply IH|].
    simpl. destruct (sub_ws true s) eqn:Hsub.
    + exfalso. apply (sub_ws_nonempty s true); auto.
    + rewrite <- Hsub. now apply IH.
  - simpl. destruct (sub_ws false s) eqn:Hsub.
    + now rewrite Hws.
    + rewrite <- Hsub. now apply IH.
Qed.

Section Summaries.

Context {W : Type} `{Collaborators W}.

Lemma normalized_text_tidy (raw : string) :
  tidy true (normalized_text raw) = true
  /\ ends_clean (normalized_text raw) = true.
Proof.
  unfold normalized_text, strip. split.
  - apply tidy_normalized_start, lstrip_starts_clean.
  - apply ends_clean_sub_ws, ends_clean_lstrip, ends_clean_rstrip.
Qed.

Lemma clean_summary_cases (raw : string) :
  (String.length (normalized_text raw) <= 300
   /\ _clean_summary raw = normalized_text raw)
  \/ (300 < String.length (normalized_text raw)
      /\ _clean_summary raw = take 300 (normalized_text raw) ++ "...").
Proof.
  unfold _clean_summary. fold (normalized_text raw).
  destruct (300 <? String.length (normalized_text raw)) eqn:Hlen.
  - right. apply Nat.ltb_lt in Hlen. auto.
  - left. apply Nat.ltb_ge in Hlen. auto.
Qed.

Lemma clean_summary_length (raw : string) :
  String.length (_clean_summary raw) <= 303.
Proof.
  destruct (clean_summary_cases raw) as [[Hlen ->] | [Hlen ->]].
  - lia.
  - rewrite length_append, length_take.
    change (String.length "...") with 3. lia.
Qed.

Lemma clean_summary_normalized (raw : string) :
  whitespace_normalized (_clean_summary raw) = true.
Proof.
  unfold whitespace_normalized.
  destruct (normalized_text_tidy raw) as [Ht He].
  destruct (clean_summary_cases raw) as [[_ ->] | [_ ->]].
  - now rewrite Ht, He.
  - rewrite tidy_dots by now apply tidy_take.
    now rewrite ends_clean_dots.
Qed.

Lemma collect_entries_summaries (es : list feed_entry) (cutoff : Z) :
  Forall (fun e => exists fe,
            In fe es
            /\ summary e = _clean_summary (get_default (fe_summary fe) ""))
         (collect_entries es cutoff).
Proof.
  induction es as [|fe es IH]; simpl; [constructor|].
  assert (Htail : Forall
            (fun e => exists fe',
               (fe = fe' \/ In fe' es)
               /\ summary e = _clean_summary (get_default (fe_summary fe') ""))
            (collect_entries es cutoff)).
  { eapply Forall_impl; [|exact IH].
    intros e [fe' [Hin Hsum]]. exists fe'. auto. }
  destruct (before_cutoff (parse_feed_date fe) cutoff); [exact Htail|].
  constructor; [|exact Htail]. exists fe. simpl. auto.
Qed.

Lemma fetched_summaries (f : string) (cutoff : Z) (s : state W) :
  Forall (fun e => exists fe,
            In fe (feed_entries (fst (feedparser_parse f (world s))))
            /\ summary e = _clean_summary (get_default (fe_summary fe) ""))
         (fst (fetch_feed_entries f cutoff s)).
Proof.
  rewrite fetch_feed_entries_run. simpl. unfold entries_of_feed.
  destruct (_ && _); [constructor | apply collect_entries_summaries].
Qed.

(** C5 (amended): every entry that [fetch_feed_entries] returns has a
    summary of at most 303 characters, made from the raw summary of an entry
    of the feed: the text extracted from it, stripped and with every run of
    whitespace turned into one space, or the first 300 characters of that
    text followed by the three-character marker; the summary has no
    whitespace at either end and no whitespace other than single spaces. *)
Theorem entry_summary_bounded (f : string) (cutoff : Z) (s : state W) :
  Forall (fun e =>
            String.length (summary e) <= 303
            /\ whitespace_normalized (summary e) = true
            /\ exists fe,
                In fe (feed_entries (fst (feedparser_parse f (world s))))
                /\ let clean :=
                     normalized_text (get_default (fe_summary fe) "") in
                   (String.length clean <= 300 /\ summary e = clean)
                   \/ (300 < String.length clean
                       /\ summary e = take 300 clean ++ "..."))
         (fst (fetch_feed_entries f cutoff s)).
Proof.
  eapply Forall_impl; [|apply fetched_summaries].
  intros e [fe [Hin ->]]. repeat split.
  - apply clean_summary_length.
  - apply clean_summary_normalized.
  - exists fe. split; [exact Hin | apply clean_summary_cases].
Qed.

(** C6: when the text extraction of ["<p>Hello   world</p>" + "x"*400] is
    the two text nodes joined by a space, [_clean_summary] gives 303
    characters: ["Hello world "], 288 times [x] and the marker ["..."];
    and whenever the normalized text has more than 300 characters the
    summary is its first 300 characters followed by the marker. *)
Theorem clean_summary_truncates :
  soup_get_text ("<p>Hello   world</p>" ++ repeat_char "x" 400)
  = "Hello   world " ++ repeat_char "x" 400 ->
  _clean_summary ("<p>Hello   world</p>" ++ repeat_char "x" 400)
  = "Hello world " ++ repeat_char "x" 288 ++ "..."
  /\ String.length
       (_clean_summary ("<p>Hello   world</p>" ++ repeat_char "x" 400)) = 303
  /\ forall raw, 300 < String.length (normalized_text raw) ->
       _clean_summary raw = take 300 (normalized_text raw) ++ "..."
       /\ String.length (_clean_summary raw) = 303.
Proof.
  intros Htext.
  assert (Hsum : _clean_summary ("<p>Hello   world</p>" ++ repeat_char "x" 400)
                 = "Hello world " ++ repeat_char "x" 288 ++ "...").
  { unfold _clean_summary. rewrite Htext. vm_compute. reflexivity. }
  split; [exact Hsum|]. split.
  - rewrite Hsum. vm_compute. reflexivity.
  - intros raw Hlen.
    destruct (clean_summary_cases raw) as [[Hle _] | [_ Heq]]; [lia|].
    split; [exact Heq|].
    rewrite Heq, length_append, length_take.
    change (String.length "...") with 3. lia.
Qed.

End Summaries.

(** C5, as stated, fails: a summary may have 303 characters. *)
Lemma summary_300_counterexample :
  ~ summaries_within 300
      (fst (fetch_feed_entries "https://verbose.example/feed" Demo.cutoff
                               Demo.start)).
Proof.
  intros Hall. vm_compute in Hall.
  inversion Hall as [|e es Hlen _]; subst.
  revert Hlen. apply Nat.lt_nge. vm_compute. repeat constructor.
Qed.

Lemma clean_summary_truncates_witness :
  soup_get_text Demo.long_summary = "Hello   world " ++ repeat_char "x" 400
  /\ String.length (_clean_summary Demo.long_summary) = 303.
Proof.
  split; [vm_compute; reflexivity|].
  destruct (@clean_summary_truncates unit Demo.world) as [_ [Hlen _]].
  - vm_compute. reflexivity.
  - exact Hlen.
Defined.


(** ** Running the effects *)

Section Effects.

Context {W : Type} `{Collaborators W}.

Local Open Scope list_scope.

Lemma http_get_run (u : string) (s : state W) :
  http_get u s
  = (fst (requests_get u (world s)),
     mk_state (snd (requests_get u (world s))) (trace s ++ [Get u])).
Proof.
  unfold http_get. now destruct (requests_get u (world s)).
Qed.

Lemma http_head_run (u : string) (s : state W) :
  http_head u s
  = (fst (requests_head u (world s)),
     mk_state (snd (requests_head u (world s)))
              (trace s ++ [Head u (option_map status_code
                                     (fst (requests_head u (world s))))])).
Proof.
  unfold http_head. now destruct (requests_head u (world s)).
Qed.

Lemma emits_ret {A : Type} (a : A) (P : A -> list event -> Prop) :
  P a [] -> emits (W := W) (ret a) P.
Proof.
  intros HP s. exists []. simpl. now rewrite app_nil_r.
Qed.

Lemma emits_bind {A B : Type} (m : @M W A) (k : A -> @M W B)
      (P : A -> list event -> Prop) (Q : B -> list event -> Prop) :
  emits m P ->
  (forall a tr1, P a tr1 ->
     emits (k a) (fun b tr2 => Q b (tr1 ++ tr2))) ->
  emits (bind m k) Q.
Proof.
  intros Hm Hk s. unfold bind.
  destruct (Hm s) as [tr1 [Htr1 HP]].
  destruct (m s) as [a s1]. simpl in *.
  destruct (Hk a tr1 HP s1) as [tr2 [Htr2 HQ]].
  exists (tr1 ++ tr2). rewrite Htr2, Htr1, app_assoc. auto.
Qed.

Lemma emits_weaken {A : Type} (m : @M W A)
      (P Q : A -> list event -> Prop) :
  emits m P -> (forall a tr, P a tr -> Q a tr) -> emits m Q.
Proof.
  intros Hm HPQ s. destruct (Hm s) as [tr [Htr HP]]. eauto.
Qed.

Lemma emits_conj {A : Type} (m : @M W A) (P Q : A -> list event -> Prop) :
  emits m P -> emits m Q -> emits m (fun a tr => P a tr /\ Q a tr).
Proof.
  intros HP HQ s.
  destruct (HP s) as [tr [Htr Hp]]. destruct (HQ s) as [tr' [Htr' Hq]].
  rewrite Htr in Htr'. apply app_inv_head in Htr'. subst tr'. eauto.
Qed.

Lemma emits_http_get (u : string) :
  emits (http_get u) (fun _ tr => tr = [Get u]).
Proof.
  intros s. rewrite http_get_run. simpl. eauto.
Qed.

Lemma emits_http_head (u : string) :
  emits (http_head u)
        (fun r tr => tr = [Head u (option_map status_code r)]).
Proof.
  intros s. rewrite http_head_run. simpl. eauto.
Qed.

Lemma emits_fetch_feed_entries (f : string) (cutoff : Z) :
  emits (fetch_feed_entries f cutoff) (fun _ tr => tr = [FeedFetch f]).
Proof.
  intros s. rewrite fetch_feed_entries_run. simpl. eauto.
Qed.

(** *** Computations that may raise *)

Lemma emitsE_ret {A : Type} (a : A) (P : option A -> list event -> Prop) :
  P (Some a) [] -> emitsE (W := W) (retE a) P.
Proof.
  intros HP s. exists []. simpl. now rewrite app_nil_r.
Qed.

Lemma emitsE_eval {A : Type} (o : option A)
      (P : option A -> list event -> Prop) :
  P o [] -> emitsE (W := W) (eval o) P.
Proof.
  intros HP s. exists []. simpl. now rewrite app_nil_r.
Qed.

Lemma emitsE_run {A : Type} (m : @M W A) (P : A -> list event -> Prop) :
  emits m P ->
  emitsE (run m) (fun r tr => exists a, r = Some a /\ P a tr).
Proof.
  intros Hm s. unfold run. destruct (Hm s) as [tr [Htr HP]].
  destruct (m s) as [a s1]. simpl in *. eauto.
Qed.

Lemma emitsE_bind {A B : Type} (m : @E W A) (k : A -> @E W B)
      (P : option A -> list event -> Prop)
      (Q : option B -> list event -> Prop) :
  emitsE m P ->
  (forall a tr1, P (Some a) tr1 ->
     emitsE (k a) (fun b tr2 => Q b (tr1 ++ tr2))) ->
  (forall tr1, P None tr1 -> Q None tr1) ->
  emitsE (bindE m k) Q.
Proof.
  intros Hm Hk Hraise s. unfold bindE.
  destruct (Hm s) as [tr1 [Htr1 HP]].
  destruct (m s) as [[a|] s1]; simpl in *.
  - destruct (Hk a tr1 HP s1) as [tr2 [Htr2 HQ]].
    exists (tr1 ++ tr2). rewrite Htr2, Htr1, app_assoc. auto.
  - exists tr1. auto.
Qed.

Lemma emitsE_weaken {A : Type} (m : @E W A)
      (P Q : option A -> list event -> Prop) :
  emitsE m P -> (forall r tr, P r tr -> Q r tr) -> emitsE m Q.
Proof.
  intros Hm HPQ s. destruct (Hm s) as [tr [Htr HP]]. eauto.
Qed.

Lemma emitsE_conj {A : Type} (m : @E W A)
      (P Q : option A -> list event -> Prop) :
  emitsE m P -> emitsE m Q -> emitsE m (fun r tr => P r tr /\ Q r tr).
Proof.
  intros HP HQ s.
  destruct (HP s) as [tr [Htr Hp]]. destruct (HQ s) as [tr' [Htr' Hq]].
  rewrite Htr in Htr'. apply app_inv_head in Htr'. subst tr'. eauto.
Qed.

(** *** Hosts *)

Lemma domain_of_none (u : string) :
  domain_of u = None <-> urlparse u = None.
Proof.
  unfold domain_of. destruct (urlparse u); split; congruence.
Qed.

Lemma should_skip_none (u : string) :
  should_skip u = None <-> urlparse u = None.
Proof.
  unfold should_skip, domain_of. destruct (urlparse u); split; congruence.
Qed.

Lemma should_skip_parsed (u : string) (b : bool) :
  should_skip u = Some b ->
  exists parsed, urlparse u = Some parsed
                 /\ domain_of u = Some (removeprefix "www." (netloc parsed)).
Proof.
  unfold should_skip, domain_of.
  destruct (urlparse u) as [parsed|]; [eauto | discriminate].
Qed.

(** *** The platform strategy *)

Lemma probe_platforms_emits (domain u cand : string)
      (patterns : list (string * (string -> string))) :
  (forall p, In p patterns -> snd p u = cand) ->
  emits (probe_platforms domain u patterns)
        (platform_post cand
           (existsb (fun p => contains (fst p) domain) patterns)).
Proof.
  induction patterns as [|[pd mk] rest IH]; intros Hcand; simpl.
  - apply emits_ret. repeat split; auto; try discriminate.
    + intros [].
  - assert (Hrest : forall p, In p rest -> snd p u = cand)
      by (intros p Hp; apply Hcand; now right).
    specialize (IH Hrest).
    destruct (contains pd domain) eqn:Hpd; simpl; [|exact IH].
    pose proof (Hcand (pd, mk) (or_introl eq_refl)) as Hmk.
    simpl in Hmk. rewrite Hmk.
    eapply emits_bind; [apply emits_http_head|].
    intros r tr1 ->.
    assert (Hmiss : option_map status_code r <> Some 200%Z ->
                    emits (probe_platforms domain u rest)
                      (fun b tr2 =>
                         platform_post cand true b
                           ([Head cand (option_map status_code r)] ++ tr2))).
    { intros Hst. eapply emits_weaken; [exact IH|].
      intros b tr2 (Hall & Hiff & Hor & _). repeat split.
      - constructor; eauto.
      - intros Hb. right. now apply Hiff.
      - intros [Hhd | Htl]; [|now apply Hiff].
        exfalso. apply Hst. now inversion Hhd.
      - exact Hor.
      - discriminate. }
    destruct r as [resp|]; [|apply Hmiss; discriminate].
    destruct (status_code resp =? 200)%Z eqn:Hst.
    + apply Z.eqb_eq in Hst. apply emits_ret. simpl. rewrite Hst.
      repeat split; auto; try discriminate.
      * repeat constructor. eauto.
      * intros _. now left.
    + apply Hmiss. simpl. apply Z.eqb_neq in Hst. congruence.
Qed.

Lemma platform_table_candidate (u : string) :
  forall p, In p PLATFORM_FEED_PATTERNS -> snd p u = platform_candidate u.
Proof.
  intros p [<- | [<- | []]]; reflexivity.
Qed.

Lemma discover_feed_platform_run (u : string) (s : state W) :
  discover_feed_platform u s
  = match domain_of u with
    | Some domain =>
        (Some (fst (probe_platforms domain u PLATFORM_FEED_PATTERNS s)),
         snd (probe_platforms domain u PLATFORM_FEED_PATTERNS s))
    | None => (None, s)
    end.
Proof.
  unfold discover_feed_platform, bindE, eval, run.
  destruct (domain_of u) as [domain|]; [|reflexivity].
  now destruct (probe_platforms domain u PLATFORM_FEED_PATTERNS s).
Qed.


End Effects.



(** ** The discovery strategies *)

Lemma prefix_drop (p s : string) :
  String.prefix p s = true -> s = p ++ drop (String.length p) s.
Proof.
  revert s. induction p as [|a p IH]; intros s.
  - reflexivity.
  - destruct s as [|b s]; simpl; [discriminate|].
    destruct (ascii_dec a b) as [->|]; [|discriminate].
    intros Hp. f_equal. now apply IH.
Qed.

Lemma prefix_append_both (a p s : string) :
  String.prefix (a ++ p) (a ++ s) = String.prefix p s.
Proof.
  induction a as [|c a IH]; simpl; [reflexivity|].
  destruct (ascii_dec c c); [exact IH | congruence].
Qed.

Lemma prefix_cons (c : ascii) (p s : string) :
  String.prefix (String c p) (String c s) = String.prefix p s.
Proof.
  simpl. destruct (ascii_dec c c); [reflexivity | congruence].
Qed.

Section Strategies.

Context {W : Type} `{Collaborators W}.

Local Open Scope list_scope.

Lemma removeprefix_www (n : string) :
  removeprefix "www." n = "nitter.net"
  <-> n = "nitter.net" \/ n = "www.nitter.net".
Proof.
  unfold removeprefix.
  destruct (String.prefix "www." n) eqn:Hwww.
  - split.
    + intros Hdrop. right.
      rewrite (prefix_drop _ _ Hwww), Hdrop. reflexivity.
    + intros [Hn | Hn]; rewrite Hn in Hwww |- *;
        [discriminate | reflexivity].
  - split.
    + now left.
    + intros [Hn | Hn]; [exact Hn|]. rewrite Hn in Hwww. discriminate.
Qed.

(** X3: A URL is skipped exactly when [urlparse] accepts it and gives the
    host [nitter.net] or [www.nitter.net], in these very letters; the test
    raises exactly when [urlparse] rejects the URL. *)
Theorem should_skip_hosts (u : string) :
  (should_skip u = Some true
   <-> exists parsed,
        urlparse u = Some parsed
        /\ (netloc parsed = "nitter.net"
            \/ netloc parsed = "www.nitter.net"))
  /\ (should_skip u = None <-> urlparse u = None).
Proof.
  split; [|apply should_skip_none].
  unfold should_skip, domain_of, SKIP_DOMAINS, str_in.
  destruct (urlparse u) as [parsed|].
  - cbn [existsb]. rewrite orb_false_r. split.
    + intros Heq. injection Heq as Hn. apply String.eqb_eq in Hn.
      exists parsed. split; [reflexivity | now apply removeprefix_www].
    + intros [p [Hp Hn]]. injection Hp as <-.
      apply removeprefix_www in Hn. rewrite Hn. reflexivity.
  - split; [discriminate|]. intros [p [Hp _]]. discriminate.
Qed.

(** *** The platform strategy *)

Lemma probe_platforms_no_match (domain u : string)
      (patterns : list (string * (string -> string))) (s : state W) :
  existsb (fun p => contains (fst p) domain) patterns = false ->
  probe_platforms domain u patterns s = (None, s).
Proof.
  induction patterns as [|[pd mk] rest IH]; simpl; [reflexivity|].
  intros Hno. apply orb_false_elim in Hno as [Hpd Hrest].
  rewrite Hpd. now apply IH.
Qed.

(** X4: For a host that contains no platform domain the platform strategy
    finds nothing and makes no request. *)
Theorem discover_feed_platform_other_host (u domain : string)
        (s : state W) :
  domain_of u = Some domain ->
  on_platform domain = false ->
  discover_feed_platform u s = (Some None, s).
Proof.
  intros Hdomain Hoff. rewrite discover_feed_platform_run, Hdomain.
  now rewrite (probe_platforms_no_match _ _ _ _ Hoff).
Qed.

Lemma emits_platform_bound (domain u : string)
      (patterns : list (string * (string -> string))) :
  emits (probe_platforms domain u patterns)
        (fun _ tr => length tr <= length patterns).
Proof.
  induction patterns as [|[pd mk] rest IH]; simpl.
  - apply emits_ret. auto.
  - assert (Hskip : emits (probe_platforms domain u rest)
              (fun _ tr => length tr <= S (length rest))).
    { eapply emits_weaken; [exact IH|]. intros b tr Hl. simpl in *. lia. }
    destruct (contains pd domain); [|exact Hskip].
    eapply emits_bind; [apply emits_http_head|].
    intros r tr1 ->.
    assert (Hnext : emits (probe_platforms domain u rest)
              (fun _ tr2 =>
                 length ([Head (mk u) (option_map status_code r)] ++ tr2)
                 <= S (length rest))).
    { eapply emits_weaken; [exact IH|].
      intros b tr2 Hl. simpl in *. lia. }
    destruct r as [resp|]; [|exact Hnext].
    destruct (_ =? _)%Z; [|exact Hnext].
    apply emits_ret. simpl. lia.
Qed.

Lemma emitsE_discover_feed_platform (u : string) :
  emitsE (discover_feed_platform u)
         (fun r tr => Forall (probe_of u) tr
                      /\ length tr <= 2
                      /\ (r = None -> urlparse u = None /\ tr = [])).
Proof.
  intros s. rewrite discover_feed_platform_run.
  destruct (domain_of u) as [domain|] eqn:Hdomain.
  - destruct (emits_conj _ _ _
                (probe_platforms_emits domain u (platform_candidate u)
                   PLATFORM_FEED_PATTERNS (platform_table_candidate u))
                (emits_platform_bound domain u PLATFORM_FEED_PATTERNS) s)
      as [tr [Htr [(Hall & _) Hlen]]].
    exists tr. cbn [fst snd]. split; [exact Htr|].
    split; [|split; [exact Hlen | discriminate]].
    eapply Forall_impl; [|exact Hall].
    intros e [st ->]. exists (platform_candidate u), st.
    split; [reflexivity | now left].
  - exists []. cbn [fst snd]. rewrite app_nil_r.
    split; [reflexivity|]. split; [constructor|]. split; [simpl; lia|].
    intros _. split; [now apply domain_of_none | reflexivity].
Qed.

(** *** The HTML strategy *)

Lemma resolve_href_raises (u href : string) :
  resolve_href u href = None -> urlparse u = None.
Proof.
  unfold resolve_href. destruct (_ && _); [|discriminate].
  destruct (urlparse u); [discriminate | reflexivity].
Qed.

Lemma resolve_href_absolute (u href h : string) :
  resolve_href u href = Some h ->
  is_empty h = false ->
  startswith "http" h = true
  \/ exists parsed,
      urlparse u = Some parsed
      /\ startswith (scheme parsed ++ "://" ++ netloc parsed ++ "/") h = true.
Proof.
  unfold resolve_href, startswith.
  destruct (is_empty href) eqn:Hempty; simpl.
  - intros Hh. inversion Hh; subst. congruence.
  - destruct (String.prefix "http" href) eqn:Hhttp; simpl.
    + intros Hh _. inversion Hh; subst. now left.
    + destruct (urlparse u) as [parsed|]; [|discriminate].
      intros Hh _. inversion Hh; subst; clear Hh.
      right. exists parsed. split; [reflexivity|].
      destruct (String.prefix "/" href) eqn:Hslash;
        repeat (rewrite prefix_cons || rewrite prefix_append_both);
        [exact Hslash | now destruct href].
Qed.

Lemma first_feed_link_raises (u : string) (links : list link_tag) :
  first_feed_link u links = None -> urlparse u = None.
Proof.
  induction links as [|link rest IH]; simpl; [discriminate|].
  destruct (_ || _); [|exact IH].
  destruct (resolve_href u _) as [href|] eqn:Hhref.
  - destruct (negb (is_empty href)); [discriminate | exact IH].
  - intros _. now apply resolve_href_raises in Hhref.
Qed.

Lemma first_feed_link_absolute (u : string) (links : list link_tag) :
  forall h, first_feed_link u links = Some (Some h) ->
    is_empty h = false
    /\ (startswith "http" h = true
        \/ exists parsed,
            urlparse u = Some parsed
            /\ startswith (scheme parsed ++ "://" ++ netloc parsed ++ "/") h
               = true).
Proof.
  induction links as [|link rest IH]; intros h; simpl; [discriminate|].
  destruct (_ || _); [|apply IH].
  destruct (resolve_href u _) as [href|] eqn:Hhref; [|discriminate].
  destruct (is_empty href) eqn:Hempty; simpl; [apply IH|].
  intros Hh. inversion Hh; subst; clear Hh.
  split; [exact Hempty | now apply resolve_href_absolute in Hhref].
Qed.

Lemma discover_feed_from_html_run (u : string) (s : state W) :
  discover_feed_from_html u s
  = (match fst (requests_get u (world s)) with
     | None => Some None
     | Some resp =>
         if raises_for_status resp then Some None
         else first_feed_link u (soup_alternate_links (text resp))
     end,
     mk_state (snd (requests_get u (world s))) (trace s ++ [Get u])).
Proof.
  unfold discover_feed_from_html, bindE, run. rewrite http_get_run.
  destruct (fst (requests_get u (world s))) as [resp|]; [|reflexivity].
  now destruct (raises_for_status resp).
Qed.

(** X5: The HTML strategy makes one request, the GET of the URL.  It finds
    nothing when the GET raises or answers 4xx or 5xx.  A feed URL it
    returns is not empty, and starts with [http] or with the scheme and
    host of the URL followed by a slash.  It raises only when [urlparse]
    rejects the URL. *)
Theorem discover_feed_from_html_result (u : string) (s : state W) :
  trace (snd (discover_feed_from_html u s)) = trace s ++ [Get u]
  /\ (fst (requests_get u (world s)) = None ->
      fst (discover_feed_from_html u s) = Some None)
  /\ (forall resp, fst (requests_get u (world s)) = Some resp ->
                   (400 <= status_code resp < 600)%Z ->
                   fst (discover_feed_from_html u s) = Some None)
  /\ (forall h, fst (discover_feed_from_html u s) = Some (Some h) ->
        is_empty h = false
        /\ (startswith "http" h = true
            \/ exists parsed,
                urlparse u = Some parsed
                /\ startswith (scheme parsed ++ "://"
                               ++ netloc parsed ++ "/")%string h = true))
  /\ (fst (discover_feed_from_html u s) = None -> urlparse u = None).
Proof.
  rewrite discover_feed_from_html_run. cbn [fst snd trace].
  split; [reflexivity|]. split; [intros Hget; now rewrite Hget|].
  split; [|split].
  - intros resp Hget Hst. rewrite Hget. unfold raises_for_status.
    destruct (Z.leb_spec 400 (status_code resp));
      destruct (Z.ltb_spec (status_code resp) 600); simpl; auto; lia.
  - intros h Hh.
    destruct (fst (requests_get u (world s))) as [resp|]; [|discriminate].
    destruct (raises_for_status resp); [discriminate|].
    now apply first_feed_link_absolute in Hh.
  - intros Hraise.
    destruct (fst (requests_get u (world s))) as [resp|]; [|discriminate].
    destruct (raises_for_status resp); [discriminate|].
    now apply first_feed_link_raises in Hraise.
Qed.

Lemma emitsE_discover_feed_from_html (u : string) :
  emitsE (discover_feed_from_html u)
         (fun r tr => tr = [Get u] /\ (r = None -> urlparse u = None)).
Proof.
  intros s. rewrite discover_feed_from_html_run. exists [Get u].
  cbn [fst snd trace]. repeat split.
  intros Hraise.
  destruct (fst (requests_get u (world s))) as [resp|]; [|discriminate].
  destruct (raises_for_status resp); [discriminate|].
  now apply first_feed_link_raises in Hraise.
Qed.

End Strategies.

(** *** The well-known strategy *)

Section WellKnown.

Context {W : Type} `{Collaborators W}.

Local Open Scope list_scope.

Lemma emits_well_known (base : string) (paths : list string) :
  emits (probe_well_known base paths) (well_known_post base paths).
Proof.
  induction paths as [|path rest IH]; simpl.
  - apply emits_ret. repeat split; auto. discriminate.
  - eapply emits_bind; [apply emits_http_head|].
    intros r tr1 ->.
    assert (Hnext : emits (probe_well_known base rest)
              (fun b tr2 =>
                 well_known_post base (path :: rest) b
                   ([Head (base ++ path)%string (option_map status_code r)]
                      ++ tr2))).
    { eapply emits_weaken; [exact IH|].
      intros b tr2 (Hhead & Hurls & Hnone & Hsome). repeat split.
      - exact Hhead.
      - simpl. now rewrite Hurls.
      - intros Hb. simpl. now rewrite Hnone.
      - intros f Hf. destruct (Hsome f Hf) as [pre ->].
        now exists (Head (base ++ path)%string (option_map status_code r)
                      :: pre). }
    destruct r as [resp|]; [|exact Hnext].
    destruct (status_code resp =? 200)%Z eqn:Hst; [|exact Hnext].
    destruct (feed_content_type _); [|exact Hnext].
    apply Z.eqb_eq in Hst. apply emits_ret. simpl. rewrite Hst.
    repeat split; try discriminate.
    intros f Hf. inversion Hf; subst. now exists [].
Qed.

Lemma emits_well_known_paths (base : string) (paths : list string) :
  emits (probe_well_known base paths)
        (fun _ tr =>
           Forall (fun e => exists path st,
                       In path paths /\ e = Head (base ++ path)%string st)
                  tr).
Proof.
  induction paths as [|path rest IH]; simpl.
  - apply emits_ret. constructor.
  - eapply emits_bind; [apply emits_http_head|].
    intros r tr1 ->.
    assert (Hhead : exists p st,
               (path = p \/ In p rest)
               /\ Head (base ++ path)%string (option_map status_code r)
                  = Head (base ++ p)%string st) by eauto.
    assert (Hnext : emits (probe_well_known base rest)
              (fun _ tr2 =>
                 Forall (fun e => exists p st,
                             (path = p \/ In p rest)
                             /\ e = Head (base ++ p)%string st)
                   ([Head (base ++ path)%string (option_map status_code r)]
                      ++ tr2))).
    { eapply emits_weaken; [exact IH|].
      intros b tr2 Htr2. simpl. constructor; [exact Hhead|].
      eapply Forall_impl; [|exact Htr2].
      intros e (p & st & Hp & ->). eauto. }
    destruct r as [resp|]; [|exact Hnext].
    destruct (_ && _); [|exact Hnext].
    apply emits_ret. simpl. repeat constructor. exact Hhead.
Qed.

Lemma discover_feed_well_known_run (u : string) (s : state W) :
  discover_feed_well_known u s
  = match urlparse u with
    | Some parsed =>
        (Some (fst (probe_well_known
                      (scheme parsed ++ "://" ++ netloc parsed)
                      WELL_KNOWN_FEED_PATHS s)),
         snd (probe_well_known (scheme parsed ++ "://" ++ netloc parsed)
                               WELL_KNOWN_FEED_PATHS s))
    | None => (None, s)
    end.
Proof.
  unfold discover_feed_well_known, bindE, eval, run.
  destruct (urlparse u) as [parsed|]; [|reflexivity].
  now destruct (probe_well_known _ WELL_KNOWN_FEED_PATHS s).
Qed.

Lemma well_known_length (base : string) (paths : list string)
      (r : option string) (tr : list event) :
  well_known_post base paths r tr -> length tr <= length paths.
Proof.
  intros (_ & Hurls & _).
  apply (f_equal (@length string)) in Hurls.
  rewrite !length_map, length_firstn in Hurls. lia.
Qed.

(** X6: The well-known strategy raises at once when [urlparse] rejects the
    URL.  Otherwise it makes HEAD requests only, on the six well-known
    paths of the host in their order, and stops at the first it accepts: it
    returns the URL of its last request, which answered 200; when it finds
    nothing it has tried all six. *)
Theorem discover_feed_well_known_probes (u : string) (s : state W) :
  match urlparse u with
  | None => discover_feed_well_known u s = (None, s)
  | Some parsed =>
      let base := (scheme parsed ++ "://" ++ netloc parsed)%string in
      exists r tr,
        fst (discover_feed_well_known u s) = Some r
        /\ trace (snd (discover_feed_well_known u s)) = trace s ++ tr
        /\ forallb is_head tr = true
        /\ length tr <= 6
        /\ map event_url tr
           = map (fun path => (base ++ path)%string)
                 (firstn (length tr) WELL_KNOWN_FEED_PATHS)
        /\ (r = None -> length tr = 6)
        /\ (forall f, r = Some f ->
              exists pre, tr = pre ++ [Head f (Some 200%Z)])
  end.
Proof.
  rewrite discover_feed_well_known_run.
  destruct (urlparse u) as [parsed|]; [|reflexivity].
  intros base.
  destruct (emits_well_known base WELL_KNOWN_FEED_PATHS s)
    as [tr [Htr Hpost]].
  pose proof (well_known_length _ _ _ _ Hpost) as Hlen.
  destruct Hpost as (Hhead & Hurls & Hnone & Hsome).
  exists (fst (probe_well_known base WELL_KNOWN_FEED_PATHS s)), tr.
  cbn [fst snd]. repeat split; auto.
Qed.

(** The loop returns the first path whose answer passes the test. *)
Lemma probe_well_known_first (base : string) (paths : list string) :
  forall s,
    fst (probe_well_known base paths s)
    = first_accepted base paths
        (head_answers (map (fun path => (base ++ path)%string) paths)
                      (world s)).
Proof.
  induction paths as [|path rest IH]; intros s; [reflexivity|].
  cbn [probe_well_known map head_answers]. unfold bind.
  rewrite http_head_run.
  destruct (requests_head (base ++ path)%string (world s)) as [r w] eqn:Hr.
  cbn [fst snd first_accepted].
  destruct r as [resp|]; cbn [well_known_accepts].
  - unfold get_default.
    destruct (_ && _); [reflexivity|]. now rewrite IH.
  - now rewrite IH.
Qed.

Lemma first_accepted_none (base : string) (paths : list string) :
  forall answers,
    length answers = length paths ->
    (first_accepted base paths answers = None
     <-> forallb (fun r => negb (well_known_accepts r)) answers = true).
Proof.
  induction paths as [|path rest IH]; intros [|r answers] Hlen;
    simpl in *; try discriminate; [tauto|].
  destruct (well_known_accepts r); simpl.
  - split; discriminate.
  - apply IH. lia.
Qed.

Lemma head_answers_length (vs : list string) :
  forall w, length (head_answers vs w) = length vs.
Proof.
  induction vs as [|v vs IH]; intros w; simpl; [reflexivity|].
  destruct (requests_head v w). simpl. now rewrite IH.
Qed.

(** X7: When [urlparse] accepts the URL, the well-known strategy returns
    the first of the six paths, in their order, whose HEAD answer has
    status 200 and a content type that contains [xml], [rss] or [atom]
    (lower-cased; a missing header counts as empty), the answers being
    those the world gives to the requests one after the other; it finds
    nothing exactly when none of the six answers has both. *)
Theorem discover_feed_well_known_first_accepted (u : string)
        (parsed : url_parts) (s : state W) :
  urlparse u = Some parsed ->
  let base := (scheme parsed ++ "://" ++ netloc parsed)%string in
  let answers :=
    head_answers (map (fun path => (base ++ path)%string)
                      WELL_KNOWN_FEED_PATHS) (world s) in
  fst (discover_feed_well_known u s)
  = Some (first_accepted base WELL_KNOWN_FEED_PATHS answers)
  /\ (fst (discover_feed_well_known u s) = Some None
      <-> forallb (fun r => negb (well_known_accepts r)) answers = true).
Proof.
  intros Hparsed base answers.
  rewrite discover_feed_well_known_run, Hparsed. cbn [fst].
  fold base. rewrite probe_well_known_first. fold answers.
  split; [reflexivity|].
  rewrite <- (first_accepted_none base WELL_KNOWN_FEED_PATHS answers).
  - split; [intros Heq; now injection Heq | intros ->; reflexivity].
  - unfold answers. now rewrite head_answers_length, length_map.
Qed.

Lemma emitsE_discover_feed_well_known (u : string) :
  emitsE (discover_feed_well_known u)
         (fun r tr => Forall (probe_of u) tr
                      /\ length tr <= 6
                      /\ (r = None -> urlparse u = None /\ tr = [])).
Proof.
  intros s. rewrite discover_feed_well_known_run.
  destruct (urlparse u) as [parsed|] eqn:Hparsed.
  - set (base := (scheme parsed ++ "://" ++ netloc parsed)%string).
    destruct (emits_conj _ _ _
                (emits_well_known base WELL_KNOWN_FEED_PATHS)
                (emits_well_known_paths base WELL_KNOWN_FEED_PATHS) s)
      as [tr [Htr [Hpost Hpaths]]].
    exists tr. cbn [fst snd]. split; [exact Htr|].
    split; [|split; [|discriminate]].
    + eapply Forall_impl; [|exact Hpaths].
      intros e (path & st & Hpath & ->).
      exists (base ++ path)%string, st. split; [reflexivity|].
      right. exists parsed, path. auto.
    + apply (well_known_length _ _ _ _ Hpost).
  - exists []. cbn [fst snd]. rewrite app_nil_r.
    split; [reflexivity|]. split; [constructor|]. split; [simpl; lia|].
    auto.
Qed.

(** *** All strategies *)

Lemma probes_are_heads (u : string) (tr : list event) :
  Forall (probe_of u) tr -> forallb is_head tr = true.
Proof.
  induction 1 as [|e tr (v & st & -> & _) _ IH]; simpl; auto.
Qed.

Lemma probes_follow (no_screenshots : bool) (u : string) (tr : list event) :
  Forall (probe_of u) tr -> Forall (follows no_screenshots u) tr.
Proof.
  apply Forall_impl. intros e (v & st & -> & Hv). exact Hv.
Qed.

(** Feed discovery starts with [GET u] and goes on with at most eight HEAD
    probes derived from [u]; it raises only when [urlparse] rejects [u], and
    never returns an empty feed URL. *)
Lemma emitsE_discover_feed (u : string) :
  emitsE (discover_feed u)
         (fun r tr =>
            (exists rest, tr = Get u :: rest
                          /\ Forall (probe_of u) rest
                          /\ length rest <= 8)
            /\ (r = None -> urlparse u = None)
            /\ (forall f, r = Some f -> f = None \/ truthy f = true)).
Proof.
  unfold discover_feed.
  eapply emitsE_bind; [apply emitsE_discover_feed_from_html| |].
  2:{ intros tr1 [-> Hraise]. split; [|split; [auto | discriminate]].
      exists []. repeat split; [constructor | simpl; lia]. }
  intros f1 tr1 [-> _].
  destruct (truthy f1) eqn:Hf1.
  { apply emitsE_ret. split; [|split; [discriminate|]].
    - exists []. repeat split; [constructor | simpl; lia].
    - intros f Hf. injection Hf as <-. auto. }
  eapply emitsE_bind; [apply emitsE_discover_feed_platform| |].
  2:{ intros tr2 (_ & _ & Hraise). destruct (Hraise eq_refl) as [Hu ->].
      split; [|split; [auto | discriminate]].
      exists []. repeat split; [constructor | simpl; lia]. }
  intros f2 tr2 (Hp2 & Hl2 & _).
  destruct (truthy f2) eqn:Hf2.
  { apply emitsE_ret. rewrite app_nil_r. split; [|split; [discriminate|]].
    - exists tr2. repeat split; [exact Hp2 | lia].
    - intros f Hf. injection Hf as <-. auto. }
  eapply emitsE_bind; [apply emitsE_discover_feed_well_known| |].
  2:{ intros tr3 (_ & _ & Hraise). destruct (Hraise eq_refl) as [Hu ->].
      rewrite app_nil_r. split; [|split; [auto | discriminate]].
      exists tr2. repeat split; [exact Hp2 | lia]. }
  intros f3 tr3 (Hp3 & Hl3 & _).
  assert (Hall : exists rest,
             [Get u] ++ tr2 ++ tr3 ++ [] = Get u :: rest
             /\ Forall (probe_of u) rest /\ length rest <= 8).
  { exists (tr2 ++ tr3). rewrite app_nil_r. repeat split.
    - apply Forall_app. auto.
    - rewrite length_app. lia. }
  destruct (truthy f3) eqn:Hf3; apply emitsE_ret;
    (split; [exact Hall | split; [discriminate|]]);
    intros f Hf; injection Hf as <-; auto.
Qed.

(** X8: Feed discovery makes at most nine requests: the GET of the URL
    first, then HEAD requests only, at most eight; it returns nothing or a
    feed URL that is not empty, and raises only when [urlparse] rejects the
    URL; and when the page of the URL links a feed, that link is the result
    and no HEAD request is made. *)
Theorem discover_feed_requests (u : string) (s : state W) :
  (exists rest,
      trace (snd (discover_feed u s)) = trace s ++ Get u :: rest
      /\ forallb is_head rest = true
      /\ length rest <= 8)
  /\ (fst (discover_feed u s) = Some None
      \/ (exists f, fst (discover_feed u s) = Some (Some f)
                    /\ is_empty f = false)
      \/ (fst (discover_feed u s) = None /\ urlparse u = None))
  /\ ((exists f, fst (discover_feed_from_html u s) = Some f
                 /\ truthy f = true) ->
      discover_feed u s = discover_feed_from_html u s).
Proof.
  destruct (emitsE_discover_feed u s)
    as [tr [Htr [[rest [-> [Hrest Hlen]]] [Hraise Hvalue]]]].
  split; [|split].
  - exists rest. split; [exact Htr|].
    split; [now apply probes_are_heads with (u := u) | exact Hlen].
  - destruct (fst (discover_feed u s)) as [[f|]|].
    + right. left. exists f. split; [reflexivity|].
      destruct (Hvalue _ eq_refl) as [Hf | Hf]; [discriminate|].
      simpl in Hf. now apply negb_true_iff in Hf.
    + now left.
    + right. right. auto.
  - intros [f [Hhtml Hf]]. unfold discover_feed, bindE.
    destruct (discover_feed_from_html u s) as [r s1]. simpl in Hhtml.
    subst r. now rewrite Hf.
Qed.

(** *** The screenshot *)

Lemma emitsE_take_screenshot (u : string) :
  emitsE (take_screenshot u)
         (fun r tr =>
            tr = [Capture u]
            /\ (r = None -> urlparse u = None)
            /\ (forall p, r = Some (Some p) ->
                  truthy (Some p) = true
                  /\ exists domain day,
                      domain_of u = Some domain
                      /\ p = screenshot_path domain day)).
Proof.
  intros s. unfold take_screenshot. exists [Capture u].
  destruct (negb (playwright_installed (world s))).
  { cbn [fst snd trace]. split; [reflexivity|]. split; [reflexivity|].
    split; [discriminate | intros p Hp; discriminate]. }
  destruct (domain_of u) as [domain|] eqn:Hdomain.
  - destruct (page_screenshot _ _ _) as [ok w]. cbn [fst snd trace].
    split; [reflexivity|]. split; [reflexivity|]. split; [discriminate|].
    intros p Hp. destruct ok; [|discriminate].
    injection Hp as <-. split; [reflexivity | eauto].
  - cbn [fst snd trace]. split; [reflexivity|]. split; [reflexivity|].
    split; [intros _; now apply domain_of_none | discriminate].
Qed.

End WellKnown.

Lemma discover_feed_platform_other_host_witness :
  (domain_of "https://alpha.example/blog" = Some "alpha.example"
   /\ on_platform "alpha.example" = false)
  /\ discover_feed_platform "https://alpha.example/blog" Demo.start
     = (Some None, Demo.start).
Proof.
  split; [split; reflexivity|].
  apply (discover_feed_platform_other_host "https://alpha.example/blog"
           "alpha.example" Demo.start); reflexivity.
Defined.

Lemma discover_feed_well_known_first_accepted_witness :
  urlparse "https://c.example/" = Some (mk_parts "https" "c.example")
  /\ fst (discover_feed_well_known "https://c.example/" Demo.start)
     = Some (Some "https://c.example/rss.xml").
Proof.
  split; [reflexivity|].
  destruct (discover_feed_well_known_first_accepted "https://c.example/"
              (mk_parts "https" "c.example") Demo.start)
    as [Hfirst _]; [reflexivity|].
  rewrite Hfirst. vm_compute. reflexivity.
Defined.

(** ** Rounds of the loop over the URLs *)

Section Rounds.

Context {W : Type} `{Collaborators W}.

Local Open Scope list_scope.

Lemma emitsE_eval_bind {A B : Type} (o : option A) (k : A -> @E W B)
      (Q : option B -> list event -> Prop) :
  (forall a, o = Some a -> emitsE (k a) Q) ->
  (o = None -> Q None []) ->
  emitsE (bindE (eval o) k) Q.
Proof.
  intros Hvalue Hraise s. unfold bindE, eval.
  destruct o as [a|].
  - now apply Hvalue.
  - exists []. simpl. rewrite app_nil_r. auto.
Qed.

Lemma emits_fetched (f : string) (cutoff : Z) :
  emits (fetch_feed_entries f cutoff)
        (fun es tr =>
           tr = [FeedFetch f]
           /\ exists s' : state W, es = fst (fetch_feed_entries f cutoff s')).
Proof.
  intros s. destruct (emits_fetch_feed_entries f cutoff s) as [tr [Htr ->]].
  exists [FeedFetch f]. eauto.
Qed.

Lemma emitsE_screenshot_fallback (u : string) (r : crawl_record) :
  emitsE (screenshot_fallback u r)
         (fun r' tr =>
            tr = [Capture u]
            /\ (r' = None -> urlparse u = None)
            /\ (forall r1, r' = Some r1 ->
                  r1 = r
                  \/ exists domain day,
                      domain_of u = Some domain
                      /\ r1 = add_screenshot r (screenshot_path domain day))).
Proof.
  unfold screenshot_fallback.
  eapply emitsE_bind; [apply emitsE_take_screenshot| |].
  - intros p tr1 (-> & _ & Hp).
    destruct p as [path|].
    + destruct (Hp path eq_refl) as [Htruthy (domain & day & Hdomain & ->)].
      rewrite Htruthy. apply emitsE_ret.
      split; [reflexivity|]. split; [discriminate|].
      intros r1 Hr1. injection Hr1 as <-. right. eauto.
    + apply emitsE_ret. split; [reflexivity|]. split; [discriminate|].
      intros r1 Hr1. injection Hr1 as <-. now left.
  - intros tr1 (-> & Hraise & _). split; [reflexivity|].
    split; [auto | discriminate].
Qed.

Lemma discover_feed_truthy (u f : string) (s s1 : state W) :
  discover_feed u s = (Some (Some f), s1) -> truthy (Some f) = true.
Proof.
  intros Hrun. destruct (emitsE_discover_feed u s) as [tr [_ [_ [_ Hr]]]].
  rewrite Hrun in Hr. destruct (Hr _ eq_refl) as [Hn | Ht];
    [discriminate | exact Ht].
Qed.

(** One round of the loop of [crawl_source]. *)
Lemma emitsE_crawl_url (cutoff : Z) (u : string) (r : crawl_record) :
  emitsE (crawl_url cutoff u r) (round_post false cutoff u r).
Proof.
  unfold crawl_url, round_post.
  apply emitsE_eval_bind; [|intros ->; auto].
  intros skip Hskip. rewrite Hskip.
  destruct skip; [now apply emitsE_ret|].
  destruct (should_skip_parsed u false Hskip) as [parsed [Hparsed Hdomain]].
  eapply emitsE_bind; [apply emitsE_discover_feed| |].
  2:{ intros tr1 (_ & Hraise & _). rewrite (Hraise eq_refl) in Hparsed.
      discriminate. }
  intros f tr1 ((rest & -> & Hrest & _) & _ & _).
  apply (probes_follow false) in Hrest.
  assert (Hfallback : forall pre,
             Forall (follows false u) pre ->
             emitsE (screenshot_fallback u r)
               (fun r' tr2 =>
                  url_requests false u ((Get u :: rest) ++ pre ++ tr2)
                  /\ exists r1, r' = Some r1
                                /\ round_result false cutoff u r r1)).
  { intros pre Hpre. eapply emitsE_weaken;
      [apply emitsE_screenshot_fallback|].
    intros r' tr2 (-> & Hraise & Hvalue). split.
    - exists (rest ++ pre ++ [Capture u]). split; [reflexivity|].
      apply Forall_app. split; [exact Hrest|].
      apply Forall_app. split; [exact Hpre|].
      repeat constructor.
    - destruct r' as [r1|].
      + exists r1. split; [reflexivity|].
        destruct (Hvalue r1 eq_refl) as [-> | (domain & day & Hd & ->)].
        * now left.
        * right. right. split; [exact Hskip|]. split; [reflexivity|]. eauto.
      + rewrite (Hraise eq_refl) in Hparsed. discriminate. }
  destruct f as [fu|]; [|apply (Hfallback []); constructor].
  destruct (truthy (Some fu)) eqn:Htruthy;
    [|apply (Hfallback []); constructor].
  eapply emitsE_bind; [apply emitsE_run, emits_fetched| |].
  2:{ intros tr2 (es & Hes & _). discriminate. }
  intros es tr2 (es' & Hes & -> & s' & ->). injection Hes as ->.
  destruct (fst (fetch_feed_entries fu cutoff s')) as [|e es] eqn:Hfetched.
  - apply (Hfallback [FeedFetch fu]). now repeat constructor.
  - apply emitsE_ret. split.
    + exists (rest ++ [FeedFetch fu] ++ []). split; [reflexivity|].
      apply Forall_app. split; [exact Hrest|]. now repeat constructor.
    + eexists. split; [reflexivity|]. right. left.
      split; [exact Hskip|]. exists fu, s'. rewrite Hfetched.
      repeat split; [exact Htruthy | discriminate].
Qed.

(** One round of the loop of the RSS-only branch. *)
Lemma emitsE_rss_only_url (cutoff : Z) (u : string) (r : crawl_record) :
  emitsE (rss_only_url cutoff u r) (round_post true cutoff u r).
Proof.
  unfold rss_only_url, round_post.
  apply emitsE_eval_bind; [|intros ->; auto].
  intros skip Hskip. rewrite Hskip.
  destruct skip; [now apply emitsE_ret|].
  destruct (should_skip_parsed u false Hskip) as [parsed [Hparsed Hdomain]].
  eapply emitsE_bind; [apply emitsE_discover_feed| |].
  2:{ intros tr1 (_ & Hraise & _). rewrite (Hraise eq_refl) in Hparsed.
      discriminate. }
  intros f tr1 ((rest & -> & Hrest & _) & _ & _).
  apply (probes_follow true) in Hrest.
  assert (Hstop : forall pre,
             Forall (follows true u) pre ->
             emitsE (W := W) (retE r)
               (fun r' tr2 =>
                  url_requests true u ((Get u :: rest) ++ pre ++ tr2)
                  /\ exists r1, r' = Some r1
                                /\ round_result true cutoff u r r1)).
  { intros pre Hpre. apply emitsE_ret. split.
    - exists (rest ++ pre ++ []). split; [reflexivity|].
      apply Forall_app. split; [exact Hrest|].
      apply Forall_app. split; [exact Hpre | constructor].
    - exists r. split; [reflexivity | now left]. }
  destruct f as [fu|]; [|apply (Hstop []); constructor].
  destruct (truthy (Some fu)) eqn:Htruthy; [|apply (Hstop []); constructor].
  eapply emitsE_bind; [apply emitsE_run, emits_fetched| |].
  2:{ intros tr2 (es & Hes & _). discriminate. }
  intros es tr2 (es' & Hes & -> & s' & ->). injection Hes as ->.
  destruct (fst (fetch_feed_entries fu cutoff s')) as [|e es] eqn:Hfetched.
  - apply (Hstop [FeedFetch fu]). now repeat constructor.
  - apply emitsE_ret. split.
    + exists (rest ++ [FeedFetch fu] ++ []). split; [reflexivity|].
      apply Forall_app. split; [exact Hrest|]. now repeat constructor.
    + eexists. split; [reflexivity|]. right. left.
      split; [exact Hskip|]. exists fu, s'. rewrite Hfetched.
      repeat split; [exact Htruthy | discriminate].
Qed.

Lemma emitsE_round (no_screenshots : bool) (cutoff : Z) (u : string)
      (r : crawl_record) :
  emitsE (round_of no_screenshots cutoff u r)
         (round_post no_screenshots cutoff u r).
Proof.
  destruct no_screenshots; simpl.
  - apply emitsE_rss_only_url.
  - apply emitsE_crawl_url.
Qed.

(** *** The loop *)

Lemma crawled_cons (u : string) (us : list string) :
  crawled (u :: us)
  = match should_skip u with
    | Some false => u :: crawled us
    | _ => crawled us
    end.
Proof.
  unfold crawled. simpl. now destruct (should_skip u) as [[|]|].
Qed.

(** The loop over the URLs: it gets through them in order, with one group
    of requests per URL that is not skipped, up to the end or to the first
    URL that [urlparse] rejects. *)
Lemma emitsE_for_urls (no_screenshots : bool) (cutoff : Z)
      (P : string -> Prop) (Inv : crawl_record -> Prop) :
  (forall u r r1, P u -> Inv r ->
     round_result no_screenshots cutoff u r r1 -> Inv r1) ->
  forall us r, Forall P us -> Inv r ->
    emitsE (for_urls (round_of no_screenshots cutoff) us r)
           (loop_post no_screenshots Inv us).
Proof.
  intros Hstep. induction us as [|u rest IH]; intros r HP Hr; simpl.
  - apply emitsE_ret. exists [], [].
    split; [reflexivity|]. split; [apply Forall2_nil|].
    split; [constructor|]. split; [reflexivity | exact Hr].
  - inversion HP as [|u' rest' Hu Hrest]; subst.
    eapply emitsE_bind; [apply emitsE_round| |].
    + intros r1 tr1 Hpost. unfold round_post in Hpost.
      destruct (should_skip u) as [[|]|] eqn:Hskip.
      * destruct Hpost as [Hr1 ->]. injection Hr1 as <-.
        eapply emitsE_weaken; [apply IH; assumption|].
        intros b tr2 (done & segs & -> & Hsegs & Hparse & Hb).
        exists (u :: done), segs. rewrite crawled_cons, Hskip.
        split; [reflexivity|]. split; [exact Hsegs|]. split.
        { constructor; [|exact Hparse].
          intros Hnone. apply should_skip_none in Hnone. congruence. }
        destruct b as [r2|].
        -- destruct Hb as [-> Hr2]. auto.
        -- destruct Hb as (bad & post & -> & Hbad). now exists bad, post.
      * destruct Hpost as [Hreq (r1' & Hr1 & Hround)].
        injection Hr1 as <-.
        eapply emitsE_weaken;
          [apply IH; [assumption | now apply (Hstep u r r1)]|].
        intros b tr2 (done & segs & -> & Hsegs & Hparse & Hb).
        exists (u :: done), (tr1 :: segs). rewrite crawled_cons, Hskip.
        split; [reflexivity|]. split; [now constructor|]. split.
        { constructor; [|exact Hparse].
          intros Hnone. apply should_skip_none in Hnone. congruence. }
        destruct b as [r2|].
        -- destruct Hb as [-> Hr2]. auto.
        -- destruct Hb as (bad & post & -> & Hbad). now exists bad, post.
      * destruct Hpost as [Hr1 _]. discriminate.
    + intros tr1 Hpost. unfold round_post in Hpost.
      destruct (should_skip u) as [[|]|] eqn:Hskip.
      * destruct Hpost as [Hr1 _]. discriminate.
      * destruct Hpost as [_ (r1 & Hr1 & _)]. discriminate.
      * destruct Hpost as [_ ->]. exists [], [].
        split; [reflexivity|]. split; [apply Forall2_nil|].
        split; [constructor|].
        exists u, rest. split; [reflexivity|]. now apply should_skip_none.
Qed.

Lemma crawl_one_loop (no_screenshots : bool) (cutoff : Z) (src : source)
      (s : state W) :
  crawl_one no_screenshots cutoff src s
  = bindE (for_urls (round_of no_screenshots cutoff) (urls src)
                    (empty_record (name src) (urls src)))
          (fun r => retE (default_method
                            r (if no_screenshots then "no_feed"
                               else "failed")))
          s.
Proof.
  now destruct no_screenshots.
Qed.

(** *** What the rounds keep *)

Lemma fetched_fresh (f : string) (cutoff : Z) (s : state W) :
  Forall (fresh cutoff) (fst (fetch_feed_entries f cutoff s)).
Proof.
  rewrite fetch_feed_entries_run. simpl. unfold entries_of_feed.
  destruct (_ && _); [constructor|].
  induction (feed_entries (fst (feedparser_parse f (world s))))
    as [|e es IH]; simpl; [constructor|].
  destruct (before_cutoff (parse_feed_date e) cutoff) eqn:Hb; [exact IH|].
  constructor; [|exact IH].
  unfold fresh, before_cutoff in *. simpl.
  destruct (parse_feed_date e) as [d|]; [|exact I].
  now apply Z.ltb_ge in Hb.
Qed.

Lemma round_shape (no_screenshots : bool) (cutoff : Z) (u : string)
      (r r' : crawl_record) :
  round_result no_screenshots cutoff u r r' ->
  record_shape None r -> record_shape None r'.
Proof.
  unfold record_shape.
  intros [-> | [[_ (f & s' & _ & Hes & ->)]
               | [_ [_ (domain & day & _ & ->)]]]] Hr.
  - exact Hr.
  - right. left. simpl. repeat split; [discriminate|].
    intros Happ. apply app_eq_nil in Happ as [_ Hnil]. contradiction.
  - destruct Hr as [(Hm & Hf & He & Hs) | [(Hm & Hf & He) | (Hm & Hf & He & Hs)]];
      simpl; rewrite Hm; simpl.
    + right. right. repeat split; auto. rewrite Hs. discriminate.
    + right. left. auto.
    + right. right. repeat split; auto.
      intros Happ. apply app_eq_nil in Happ as [_ Hnil]. discriminate.
Qed.

Lemma round_keeps_inv (no_screenshots : bool) (cutoff : Z) (nm : string)
      (us : list string) (u : string) (r r1 : crawl_record) :
  In u us ->
  record_inv no_screenshots cutoff nm us r ->
  round_result no_screenshots cutoff u r r1 ->
  record_inv no_screenshots cutoff nm us r1.
Proof.
  intros Hu (Hshape & Hname & Hurls & Hfresh & Hshots & Hnone) Hround.
  pose proof (round_shape _ _ _ _ _ Hround Hshape) as Hshape1.
  destruct Hround as [-> | [[_ (f & s' & _ & _ & ->)]
                          | [Hskip [Hmode (domain & day & Hdomain & ->)]]]].
  - repeat split; assumption.
  - repeat split; try assumption. simpl.
    apply Forall_app. split; [exact Hfresh | apply fetched_fresh].
  - repeat split; try assumption.
    + simpl. apply Forall_app. split; [exact Hshots|].
      repeat constructor. exists u, domain, day. auto.
    + intros Hrss. congruence.
Qed.

Lemma empty_record_inv (no_screenshots : bool) (cutoff : Z) (nm : string)
      (us : list string) :
  record_inv no_screenshots cutoff nm us (empty_record nm us).
Proof.
  split; [left; simpl; auto|]. split; [reflexivity|].
  split; [reflexivity|]. split; [constructor|].
  split; [constructor | reflexivity].
Qed.

(** The crawl of a source, in either mode: the URLs it got through, their
    groups of requests, and the finished record or the raise. *)
Lemma crawl_one_post (no_screenshots : bool) (cutoff : Z) (src : source) :
  emitsE (crawl_one no_screenshots cutoff src)
         (loop_post no_screenshots
                    (finished no_screenshots cutoff (name src) (urls src))
                    (urls src)).
Proof.
  intros s. rewrite crawl_one_loop. revert s.
  eapply emitsE_bind.
  - apply (emitsE_for_urls no_screenshots cutoff
             (fun u => In u (urls src))
             (record_inv no_screenshots cutoff (name src) (urls src))).
    + intros u r r1 Hu Hr Hround.
      now apply (round_keeps_inv _ _ _ _ u r).
    + now apply Forall_forall.
    + apply empty_record_inv.
  - intros r tr1 (done & segs & -> & Hsegs & Hparse & -> & Hr).
    apply emitsE_ret. exists (urls src), segs. rewrite app_nil_r.
    repeat split; auto. now exists r.
  - intros tr1 (done & segs & -> & Hsegs & Hparse & Hbad).
    exists done, segs. auto.
Qed.


Lemma finished_valid (no_screenshots : bool) (cutoff : Z) (nm : string)
      (us : list string) (r : crawl_record) :
  finished no_screenshots cutoff nm us r ->
  valid_method (method r)
  /\ record_shape (Some (if no_screenshots then "no_feed" else "failed")) r.
Proof.
  intros (r0 & (Hshape & _) & ->). unfold valid_method, record_shape in *.
  destruct Hshape as [(Hm & Hf & He & Hs) | [(Hm & Hf & He)
                                           | (Hm & Hf & He & Hs)]];
    simpl; rewrite Hm; simpl; destruct no_screenshots; auto 10.
Qed.

End Rounds.

(** ** The record of a source *)

Section Records.

Context {W : Type} `{Collaborators W}.

Local Open Scope list_scope.

Lemma follows_request (no_screenshots : bool) (u : string) (e : event) :
  follows no_screenshots u e -> request_of no_screenshots u e.
Proof.
  destruct e; simpl; auto. contradiction.
Qed.

Lemma segment_events (no_screenshots : bool) (us : list string)
      (segs : list (list event)) :
  Forall2 (url_requests no_screenshots) us segs ->
  forall e, In e (concat segs) ->
            exists u, In u us /\ request_of no_screenshots u e.
Proof.
  induction 1 as [|u seg us segs [rest [-> Hrest]] _ IH]; intros e; simpl.
  - tauto.
  - rewrite Forall_forall in Hrest.
    intros [<- | Hin].
    + exists u. split; [now left | reflexivity].
    + apply in_app_or in Hin as [Hin | Hin].
      * exists u. split; [now left|]. now apply follows_request, Hrest.
      * destruct (IH e Hin) as [v [Hv Hreq]]. exists v. auto.
Qed.

Lemma crawled_in (us : list string) (u : string) :
  In u (crawled us) -> In u us /\ should_skip u = Some false.
Proof.
  unfold crawled. intros Hin. apply filter_In in Hin as [Hin Hskip].
  split; [exact Hin|]. now destruct (should_skip u) as [[|]|].
Qed.




Lemma crawl_one_raises (no_screenshots : bool) (cutoff : Z) (src : source)
      (s : state W) :
  fst (crawl_one no_screenshots cutoff src s) = None ->
  exists u, In u (urls src) /\ urlparse u = None.
Proof.
  intros Hnone.
  destruct (crawl_one_post no_screenshots cutoff src s)
    as [tr [_ (done & segs & _ & _ & _ & Hres)]].
  rewrite Hnone in Hres. destruct Hres as (bad & rest & Hus & Hbad).
  exists bad. split; [|exact Hbad].
  rewrite Hus. apply in_or_app. right. now left.
Qed.

Lemma crawl_one_finished (no_screenshots : bool) (cutoff : Z) (src : source)
      (s : state W) (r : crawl_record) :
  fst (crawl_one no_screenshots cutoff src s) = Some r ->
  finished no_screenshots cutoff (name src) (urls src) r
  /\ parseable (urls src).
Proof.
  intros Hsome.
  destruct (crawl_one_post no_screenshots cutoff src s)
    as [tr [_ (done & segs & _ & _ & Hparse & Hres)]].
  rewrite Hsome in Hres. destruct Hres as [-> Hr]. auto.
Qed.



(** *** Two feeds *)

Lemma crawl_url_hit (cutoff : Z) (u f : string) (r : crawl_record)
      (es : list entry) (s s1 s2 : state W) :
  should_skip u = Some false ->
  discover_feed u s = (Some (Some f), s1) ->
  fetch_feed_entries f cutoff s1 = (es, s2) ->
  es <> [] ->
  crawl_url cutoff u r s = (Some (set_rss r f es), s2)
  /\ rss_only_url cutoff u r s = (Some (set_rss r f es), s2).
Proof.
  intros Hu Hfeed Hes Hne.
  pose proof (discover_feed_truthy _ _ _ _ Hfeed) as Htruthy.
  unfold crawl_url, rss_only_url, bindE, eval, run.
  rewrite Hu, Hfeed, Htruthy, Hes.
  destruct es; [congruence | auto].
Qed.

Lemma crawl_url_empty_feed (cutoff : Z) (u f : string) (r : crawl_record)
      (s s1 s2 : state W) :
  should_skip u = Some false ->
  discover_feed u s = (Some (Some f), s1) ->
  fetch_feed_entries f cutoff s1 = ([], s2) ->
  crawl_url cutoff u r s = screenshot_fallback u r s2
  /\ rss_only_url cutoff u r s = (Some r, s2).
Proof.
  intros Hu Hfeed Hes.
  pose proof (discover_feed_truthy _ _ _ _ Hfeed) as Htruthy.
  unfold crawl_url, rss_only_url, bindE, eval, run.
  now rewrite Hu, Hfeed, Htruthy, Hes.
Qed.

(** C7: a source with two URLs that are not skipped, the first with a feed
    of two entries that pass the cutoff and the second with a feed of one,
    gets a record with method [rss] whose entries are the two followed by
    the one; the hit on the first URL does not end the loop. *)
Theorem two_feeds_accumulate (no_screenshots : bool) (nm u1 u2 f1 f2 : string)
        (cutoff : Z) (es1 es2 : list entry) (s s1 s2 s3 s4 : state W) :
  should_skip u1 = Some false ->
  should_skip u2 = Some false ->
  discover_feed u1 s = (Some (Some f1), s1) ->
  fetch_feed_entries f1 cutoff s1 = (es1, s2) ->
  length es1 = 2 ->
  discover_feed u2 s2 = (Some (Some f2), s3) ->
  fetch_feed_entries f2 cutoff s3 = (es2, s4) ->
  length es2 = 1 ->
  exists r,
    crawl_one no_screenshots cutoff (mk_source nm [u1; u2]) s = (Some r, s4)
    /\ method r = Some "rss"
    /\ new_entries r = es1 ++ es2
    /\ length (new_entries r) = 3.
Proof.
  intros Hu1 Hu2 Hf1 He1 Hl1 Hf2 He2 Hl2.
  assert (Hne1 : es1 <> []) by (intros ->; discriminate).
  assert (Hne2 : es2 <> []) by (intros ->; discriminate).
  set (r0 := empty_record nm [u1; u2]).
  destruct (crawl_url_hit cutoff u1 f1 r0 es1 s s1 s2 Hu1 Hf1 He1 Hne1)
    as [Hfull1 Hrss1].
  destruct (crawl_url_hit cutoff u2 f2 (set_rss r0 f1 es1) es2 s2 s3 s4
                          Hu2 Hf2 He2 Hne2) as [Hfull2 Hrss2].
  assert (Hlen : length (es1 ++ es2) = 3)
    by (rewrite length_app, Hl1, Hl2; reflexivity).
  destruct no_screenshots;
    unfold crawl_one, crawl_source, crawl_rss_only;
    cbn [name urls for_urls]; fold r0; unfold bindE at 1 2 3.
  - rewrite Hrss1, Hrss2. eexists. split; [reflexivity|]. simpl. auto.
  - rewrite Hfull1, Hfull2. eexists. split; [reflexivity|]. simpl. auto.
Qed.

(** *** Feed found, nothing new *)

Lemma for_urls_app (body : string -> crawl_record -> @E W crawl_record)
      (us vs : list string) :
  forall r s,
    for_urls body (us ++ vs) r s
    = match for_urls body us r s with
      | (Some r1, s1) => for_urls body vs r1 s1
      | (None, s1) => (None, s1)
      end.
Proof.
  induction us as [|u us IH]; intros r s; simpl.
  - reflexivity.
  - unfold bindE. destruct (body u r s) as [[r1|] s1]; [apply IH|].
    reflexivity.
Qed.

Lemma crawl_source_state (nm : string) (us : list string) (cutoff : Z)
      (s : state W) :
  snd (crawl_source nm us cutoff s)
  = snd (for_urls (crawl_url cutoff) us (empty_record nm us) s).
Proof.
  unfold crawl_source, bindE.
  now destruct (for_urls (crawl_url cutoff) us (empty_record nm us) s)
    as [[r|] s1].
Qed.

(** C10: in full mode, when the loop of [crawl_source] reaches a URL that
    is not skipped, for which a feed is found whose entries are all before
    the cutoff (none is returned), the round goes on with the screenshot
    fallback: [take_screenshot] is called on that URL right after the feed
    retrieval. *)
Theorem empty_feed_still_screenshots (nm : string) (pre post : list string)
        (u f : string) (cutoff : Z) (r : crawl_record)
        (s0 s s1 s2 : state W) :
  for_urls (crawl_url cutoff) pre (empty_record nm (pre ++ u :: post)) s0
  = (Some r, s) ->
  should_skip u = Some false ->
  discover_feed u s = (Some (Some f), s1) ->
  fetch_feed_entries f cutoff s1 = ([], s2) ->
  crawl_url cutoff u r s = screenshot_fallback u r s2
  /\ exists tr,
      trace (snd (crawl_source nm (pre ++ u :: post) cutoff s0))
      = trace s2 ++ Capture u :: tr.
Proof.
  intros Hpre Hu Hfeed Hes.
  destruct (crawl_url_empty_feed cutoff u f r s s1 s2 Hu Hfeed Hes)
    as [Hstep _].
  split; [exact Hstep|].
  destruct (emitsE_screenshot_fallback u r s2) as [tr1 [Htr1 [-> _]]].
  rewrite crawl_source_state, for_urls_app, Hpre.
  cbn [for_urls]. unfold bindE. rewrite Hstep.
  destruct (screenshot_fallback u r s2) as [[r1|] s3]; cbn [snd] in *.
  - destruct (emitsE_for_urls false cutoff (fun _ => True) (fun _ => True)
                (fun _ _ _ _ _ _ => I) post r1
                (proj2 (Forall_forall _ _) (fun _ _ => I)) I s3)
      as [tr2 [Htr2 _]].
    change (round_of false cutoff) with (crawl_url cutoff) in Htr2.
    exists tr2. rewrite Htr2, Htr1, <- app_assoc. reflexivity.
  - exists []. exact Htr1.
Qed.

End Records.

(** ** Invariants of the record of a source *)

Section RecordInvariants.

Context {W : Type} `{Collaborators W}.

Local Open Scope list_scope.

(** X10: When [crawl_source] returns, its record has one of three shapes:
    method [rss] with a feed URL and entries; method [screenshot] with
    screenshots, no feed URL and no entry; method [failed] with nothing at
    all.  It returns unless [urlparse] rejects a URL of the source. *)
Theorem crawl_source_shape (nm : string) (us : list string) (cutoff : Z)
        (s : state W) :
  match fst (crawl_source nm us cutoff s) with
  | Some r => record_shape (Some "failed") r
  | None => exists u, In u us /\ urlparse u = None
  end.
Proof.
  change (crawl_source nm us cutoff s)
    with (crawl_one false cutoff (mk_source nm us) s).
  destruct (fst (crawl_one false cutoff (mk_source nm us) s)) as [r|] eqn:Hr.
  - apply crawl_one_finished in Hr as [Hfin _].
    now apply finished_valid in Hfin.
  - now apply crawl_one_raises in Hr.
Qed.

Lemma requests_no_capture (us : list string) (segs : list (list event)) :
  Forall2 (url_requests true) us segs ->
  forallb (fun e => negb (is_capture e)) (concat segs) = true.
Proof.
  induction 1 as [|u seg us segs [rest [-> Hrest]] _ IH]; [reflexivity|].
  simpl. rewrite forallb_app, IH, andb_true_r.
  apply forallb_forall. intros e He.
  rewrite Forall_forall in Hrest. apply Hrest in He.
  destruct e; try reflexivity. destruct He as [He _]. discriminate.
Qed.

(** X11: In RSS-only mode [take_screenshot] is never called, and when the
    loop returns, its record has method [rss] with a feed URL and entries,
    or method [no_feed] with nothing; it never holds a screenshot.  The
    loop returns unless [urlparse] rejects a URL of the source. *)
Theorem crawl_rss_only_shape (nm : string) (us : list string) (cutoff : Z)
        (s : state W) :
  match fst (crawl_rss_only nm us cutoff s) with
  | Some r => record_shape (Some "no_feed") r
              /\ screenshots r = []
              /\ method r <> Some "screenshot"
  | None => exists u, In u us /\ urlparse u = None
  end
  /\ exists tr,
      trace (snd (crawl_rss_only nm us cutoff s)) = trace s ++ tr
      /\ forallb (fun e => negb (is_capture e)) tr = true.
Proof.
  change (crawl_rss_only nm us cutoff s)
    with (crawl_one true cutoff (mk_source nm us) s).
  split.
  - destruct (fst (crawl_one true cutoff (mk_source nm us) s))
      as [r|] eqn:Hr.
    + apply crawl_one_finished in Hr as [Hfin _].
      pose proof (finished_valid _ _ _ _ _ Hfin) as [_ Hshape].
      destruct Hfin as (r0 & (_ & _ & _ & _ & _ & Hnone) & ->).
      assert (Hshots : screenshots (default_method r0 "no_feed") = [])
        by (simpl; now apply Hnone).
      split; [exact Hshape|]. split; [exact Hshots|].
      destruct Hshape as [(Hm & _) | [(Hm & _) | (_ & _ & _ & Hs)]];
        [rewrite Hm; discriminate | rewrite Hm; discriminate|].
      now rewrite Hshots in Hs.
    + now apply crawl_one_raises in Hr.
  - destruct (crawl_one_post true cutoff (mk_source nm us) s)
      as [tr [Htr (done & segs & -> & Hsegs & _)]].
    exists (concat segs). split; [exact Htr|].
    now apply requests_no_capture in Hsegs.
Qed.

(** X12: In either mode, every entry of the record of a source is undated
    or dated at the cutoff or later. *)
Theorem crawl_one_entries_fresh (no_screenshots : bool) (cutoff : Z)
        (src : source) (s : state W) :
  match fst (crawl_one no_screenshots cutoff src s) with
  | Some r => Forall (fresh cutoff) (new_entries r)
  | None => exists u, In u (urls src) /\ urlparse u = None
  end.
Proof.
  destruct (fst (crawl_one no_screenshots cutoff src s)) as [r|] eqn:Hr.
  - apply crawl_one_finished in Hr
      as [(r0 & (_ & _ & _ & Hfresh & _) & ->) _].
    exact Hfresh.
  - now apply crawl_one_raises in Hr.
Qed.

Lemma for_urls_raises (no_screenshots : bool) (cutoff : Z)
      (us : list string) (r : crawl_record) (s : state W) :
  fst (for_urls (round_of no_screenshots cutoff) us r s) = None ->
  exists u, In u us /\ urlparse u = None.
Proof.
  intros Hnone.
  destruct (emitsE_for_urls no_screenshots cutoff (fun _ => True)
              (fun _ => True) (fun _ _ _ _ _ _ => I) us r
              (proj2 (Forall_forall _ _) (fun _ _ => I)) I s)
    as [tr [_ (done & segs & _ & _ & _ & Hres)]].
  rewrite Hnone in Hres. destruct Hres as (bad & rest & -> & Hbad).
  exists bad. split; [|exact Hbad]. apply in_or_app. right. now left.
Qed.

(** X13: Later URLs never drop or reorder what the record holds: when the
    loop over the URLs [us ++ vs] returns, so does the loop over [us], and
    the entries and the screenshots after [us ++ vs] start with those after
    [us]. *)
Theorem for_urls_accumulates (no_screenshots : bool) (cutoff : Z)
        (us vs : list string) (r : crawl_record) (s : state W) :
  match fst (for_urls (round_of no_screenshots cutoff) (us ++ vs) r s) with
  | Some r2 =>
      exists r1 es shots,
        fst (for_urls (round_of no_screenshots cutoff) us r s) = Some r1
        /\ new_entries r2 = new_entries r1 ++ es
        /\ screenshots r2 = screenshots r1 ++ shots
  | None => exists u, In u (us ++ vs) /\ urlparse u = None
  end.
Proof.
  rewrite for_urls_app.
  destruct (for_urls (round_of no_screenshots cutoff) us r s)
    as [[r1|] s1] eqn:Hus.
  - destruct (emitsE_for_urls no_screenshots cutoff (fun _ => True)
                (fun r' => exists es shots,
                     new_entries r' = new_entries r1 ++ es
                     /\ screenshots r' = screenshots r1 ++ shots)) with
        (us := vs) (r := r1) (s := s1)
      as [tr [_ (done & segs & _ & _ & _ & Hres)]].
    + intros u r' r'' _ (es & shots & He & Hs)
             [-> | [[_ (f & s' & _ & _ & ->)]
                   | [_ [_ (domain & day & _ & ->)]]]]; simpl.
      * eauto.
      * exists (es ++ fst (fetch_feed_entries f cutoff s')), shots.
        rewrite He, app_assoc. auto.
      * exists es, (shots ++ [screenshot_path domain day]).
        rewrite Hs, app_assoc. auto.
    + apply Forall_forall. auto.
    + exists [], []. now rewrite !app_nil_r.
    + destruct (fst (for_urls (round_of no_screenshots cutoff) vs r1 s1))
        as [r2|].
      * destruct Hres as [_ (es & shots & He & Hs)].
        exists r1, es, shots. auto.
      * destruct Hres as (bad & rest & -> & Hbad).
        exists bad. split; [|exact Hbad].
        apply in_or_app. right. apply in_or_app. right. now left.
  - simpl.
    destruct (for_urls_raises no_screenshots cutoff us r s) as [u [Hu Hbad]].
    + now rewrite Hus.
    + exists u. split; [|exact Hbad]. apply in_or_app. now left.
Qed.

(** X14: Every screenshot of the record of [crawl_source] is the file of a
    URL of the source that is not skipped, named after its host. *)
Theorem crawl_source_screenshots (nm : string) (us : list string)
        (cutoff : Z) (s : state W) :
  match fst (crawl_source nm us cutoff s) with
  | Some r =>
      Forall (fun p => exists u domain day,
                  In u us /\ should_skip u = Some false
                  /\ domain_of u = Some domain
                  /\ p = screenshot_path domain day)
             (screenshots r)
  | None => exists u, In u us /\ urlparse u = None
  end.
Proof.
  change (crawl_source nm us cutoff s)
    with (crawl_one false cutoff (mk_source nm us) s).
  destruct (fst (crawl_one false cutoff (mk_source nm us) s)) as [r|] eqn:Hr.
  - apply crawl_one_finished in Hr
      as [(r0 & (_ & _ & _ & _ & Hshots & _) & ->) _].
    exact Hshots.
  - now apply crawl_one_raises in Hr.
Qed.

End RecordInvariants.

(** ** The cutoff *)

Section Cutoff.

Context {W : Type} `{Collaborators W}.

Lemma kept_earlier_cutoff (c1 c2 : Z) (e : feed_entry) :
  (c1 <= c2)%Z -> kept c2 e = true -> kept c1 e = true.
Proof.
  unfold kept, before_cutoff. intros Hle.
  destruct (parse_feed_date e) as [d|]; [|auto].
  rewrite !negb_true_iff, !Z.ltb_ge. lia.
Qed.

(** X15: Moving the cutoff later never adds an entry: what a feed gives for a
    later cutoff is among what it gives for an earlier one. *)
Theorem later_cutoff_fewer_entries (f : string) (c1 c2 : Z) (s : state W) :
  (c1 <= c2)%Z ->
  incl (fst (fetch_feed_entries f c2 s)) (fst (fetch_feed_entries f c1 s))
  /\ length (fst (fetch_feed_entries f c2 s))
     <= length (fst (fetch_feed_entries f c1 s)).
Proof.
  intros Hle. rewrite !fetch_feed_entries_run. simpl.
  rewrite !entries_of_feed_filter.
  set (es := feed_entries (fst (feedparser_parse f (world s)))).
  split.
  - intros e Hin. apply in_map_iff in Hin as [fe [<- Hfe]].
    apply in_map_iff. exists fe. split; [reflexivity|].
    apply filter_In in Hfe as [Hfe Hkept].
    apply filter_In. split; [exact Hfe|].
    now apply kept_earlier_cutoff with (c2 := c2).
  - rewrite !length_map. induction es as [|fe es IH]; simpl; [lia|].
    destruct (kept c2 fe) eqn:H2.
    + rewrite (kept_earlier_cutoff c1 c2 fe Hle H2). simpl. lia.
    + destruct (kept c1 fe); simpl; lia.
Qed.

End Cutoff.

Lemma later_cutoff_fewer_entries_witness :
  (Demo.cutoff <= Demo.cutoff + 3000000)%Z
  /\ length (fst (fetch_feed_entries "https://alpha.example/feed.xml"
                                     (Demo.cutoff + 3000000) Demo.start))
     <= length (fst (fetch_feed_entries "https://alpha.example/feed.xml"
                                        Demo.cutoff Demo.start)).
Proof.
  split; [lia|].
  apply (later_cutoff_fewer_entries "https://alpha.example/feed.xml"
           Demo.cutoff (Demo.cutoff + 3000000) Demo.start).
  lia.
Defined.


(** ** The session as a whole *)

Section Session.

Context {W : Type} `{Collaborators W}.

Local Open Scope list_scope.

Lemma main_run (links : string) (no_screenshots : bool) (cutoff : Z)
      (s : state W) :
  main links no_screenshots cutoff s
  = (option_map (fun rs => (rs, summarize rs))
       (fst (crawl_all no_screenshots cutoff (parse_links_file links) [] s)),
     snd (crawl_all no_screenshots cutoff (parse_links_file links) [] s)).
Proof.
  unfold main, bindE, retE.
  now destruct (crawl_all no_screenshots cutoff (parse_links_file links) [] s)
    as [[rs|] s1].
Qed.

(** The loop over the sources: every request but a feed retrieval is tied
    to a URL of a source that is not skipped; the loop appends one finished
    record per source, in order, or raises at a URL that [urlparse]
    rejects. *)
Lemma crawl_all_post (no_screenshots : bool) (cutoff : Z)
      (sources : list source) :
  forall results,
    emitsE (crawl_all no_screenshots cutoff sources results)
      (fun rs tr =>
         (forall e, In e tr ->
            exists src u, In src sources /\ In u (urls src)
                          /\ should_skip u = Some false
                          /\ request_of no_screenshots u e)
         /\ match rs with
            | Some rs =>
                exists new,
                  rs = results ++ new
                  /\ Forall2 (fun src r =>
                                finished no_screenshots cutoff
                                         (name src) (urls src) r)
                             sources new
                  /\ Forall (fun src => parseable (urls src)) sources
            | None =>
                exists src u, In src sources /\ In u (urls src)
                              /\ urlparse u = None
            end).
Proof.
  induction sources as [|src rest IH]; intros results; simpl.
  - apply emitsE_ret. split; [intros e []|].
    exists []. rewrite app_nil_r.
    split; [reflexivity|]. split; constructor.
  - eapply emitsE_bind; [apply crawl_one_post | |].
    + intros r tr1 (done & segs & -> & Hsegs & Hparse & -> & Hfin).
      eapply emitsE_weaken; [apply IH|].
      intros rs tr2 [Hev Hres]. split.
      * intros e He. apply in_app_or in He as [He | He].
        -- destruct (segment_events _ _ _ Hsegs e He) as [u [Hu Hreq]].
           apply crawled_in in Hu as [Hu Hskip].
           exists src, u. split; [now left | auto].
        -- destruct (Hev e He) as (src' & u & Hsrc & Hrest).
           exists src', u. split; [now right | exact Hrest].
      * destruct rs as [rs|].
        -- destruct Hres as (new & -> & Hnew & Hall). exists (r :: new).
           rewrite <- app_assoc. split; [reflexivity|].
           split; now constructor.
        -- destruct Hres as (src' & u & Hsrc & Hrest).
           exists src', u. split; [now right | exact Hrest].
    + intros tr1 (done & segs & -> & Hsegs & Hparse & bad & rest' & Hus
                  & Hbad).
      split.
      * intros e He.
        destruct (segment_events _ _ _ Hsegs e He) as [u [Hu Hreq]].
        apply crawled_in in Hu as [Hu Hskip].
        exists src, u. split; [now left|]. split; [|auto].
        rewrite Hus. apply in_or_app. now left.
      * exists src, bad. split; [now left|]. split; [|exact Hbad].
        rewrite Hus. apply in_or_app. right. now left.
Qed.

Lemma forall2_forall {A B : Type} (P : B -> Prop) (l : list A)
      (l' : list B) :
  Forall2 (fun _ b => P b) l l' -> Forall P l'.
Proof.
  induction 1; constructor; auto.
Qed.

Lemma forall2_weaken {A B : Type} (P Q : A -> B -> Prop) (l : list A)
      (l' : list B) :
  (forall a b, P a b -> Q a b) -> Forall2 P l l' -> Forall2 Q l l'.
Proof.
  intros HPQ. induction 1; constructor; auto.
Qed.

(** What [main] returns: one finished record per source of the catalog and
    the summary of the records, or a raise at a URL of the catalog that
    [urlparse] rejects. *)
Lemma main_cases (links : string) (no_screenshots : bool) (cutoff : Z)
      (s : state W) :
  match fst (main links no_screenshots cutoff s) with
  | Some (results, counts) =>
      counts = summarize results
      /\ Forall2 (fun src r =>
                    finished no_screenshots cutoff (name src) (urls src) r)
                 (parse_links_file links) results
      /\ Forall (fun src => parseable (urls src)) (parse_links_file links)
  | None =>
      exists src u, In src (parse_links_file links) /\ In u (urls src)
                    /\ urlparse u = None
  end.
Proof.
  rewrite main_run. cbn [fst].
  destruct (crawl_all_post no_screenshots cutoff (parse_links_file links)
                           [] s) as [tr [_ [_ Hres]]].
  destruct (fst (crawl_all no_screenshots cutoff (parse_links_file links)
                           [] s)) as [rs|]; simpl.
  - destruct Hres as (new & -> & Hnew & Hall). auto.
  - exact Hres.
Qed.

(** Each finished record is counted by exactly one of the three counters. *)
Lemma counters_partition (results : list crawl_record) :
  Forall (fun r => valid_method (method r)) results ->
  count_if (method_is "rss") results
  + count_if (method_is "screenshot") results
  + count_if (method_in ["failed"; "no_feed"]) results
  = length results.
Proof.
  unfold count_if.
  induction 1 as [|r rs Hr _ IH]; simpl; [reflexivity|].
  assert (Hone : (if method_is "rss" r then 1 else 0)
                 + (if method_is "screenshot" r then 1 else 0)
                 + (if method_in ["failed"; "no_feed"] r then 1 else 0) = 1).
  { unfold method_is, method_in.
    destruct Hr as [-> | [-> | [-> | ->]]]; reflexivity. }
  lia.
Qed.

Lemma total_entries_concat (results : list crawl_record) :
  list_sum (map (fun r => length (new_entries r)) results)
  = length (concat (map new_entries results)).
Proof.
  induction results as [|r rs IH]; simpl; [reflexivity|].
  now rewrite length_app, IH.
Qed.

(** C9: for every run of [main] that gets to the summary, the three method
    counters add up to the number of records, which is the number of
    sources of the catalog, and the total entry count is the sum of the
    lengths of the entry lists of the records, that is the number of
    entries of all records together.  The only run that does not get there
    is one in which [urlparse] rejects a URL of the catalog. *)
Theorem summary_counters (links : string) (no_screenshots : bool)
        (cutoff : Z) (s : state W) :
  match fst (main links no_screenshots cutoff s) with
  | Some (results, counts) =>
      rss_count counts + screenshot_count counts + failed_count counts
      = length results
      /\ total_entries counts
         = list_sum (map (fun r => length (new_entries r)) results)
      /\ total_entries counts = length (concat (map new_entries results))
      /\ length results = length (parse_links_file links)
  | None =>
      exists src u, In src (parse_links_file links) /\ In u (urls src)
                    /\ urlparse u = None
  end.
Proof.
  pose proof (main_cases links no_screenshots cutoff s) as Hmain.
  destruct (fst (main links no_screenshots cutoff s))
    as [[results counts]|]; [|exact Hmain].
  destruct Hmain as (-> & Hrs & _). simpl.
  split; [|split; [|split]].
  - apply counters_partition.
    apply (forall2_forall _ (parse_links_file links)).
    eapply forall2_weaken; [|exact Hrs].
    intros src r Hfin. now apply finished_valid in Hfin.
  - reflexivity.
  - apply total_entries_concat.
  - symmetry. eapply Forall2_length. exact Hrs.
Qed.

(** X16: [main] gets to the end exactly when [urlparse] accepts every URL
    of the catalog; and when it does, it has one record per source of the
    catalog, in the order of the catalog, each with the name and the URLs
    of its source. *)
Theorem main_records_follow_catalog (links : string) (no_screenshots : bool)
        (cutoff : Z) (s : state W) :
  (fst (main links no_screenshots cutoff s) <> None
   <-> Forall (fun src => parseable (urls src)) (parse_links_file links))
  /\ match fst (main links no_screenshots cutoff s) with
     | Some (results, _) =>
         Forall2 (fun src r => res_name r = name src
                               /\ res_urls r = urls src)
                 (parse_links_file links) results
     | None =>
         exists src u, In src (parse_links_file links) /\ In u (urls src)
                       /\ urlparse u = None
     end.
Proof.
  pose proof (main_cases links no_screenshots cutoff s) as Hmain.
  destruct (fst (main links no_screenshots cutoff s))
    as [[results counts]|].
  - destruct Hmain as (_ & Hrs & Hall). split.
    + split; [auto | discriminate].
    + eapply forall2_weaken; [|exact Hrs].
      intros src r (r0 & (_ & Hname & Hurls & _) & ->). simpl. auto.
  - split; [|exact Hmain].
    split; [congruence|]. intros Hall.
    destruct Hmain as (src & u & Hsrc & Hu & Hbad).
    rewrite Forall_forall in Hall. apply Hall in Hsrc.
    unfold parseable in Hsrc. rewrite Forall_forall in Hsrc.
    now apply Hsrc in Hu.
Qed.

(** X17: During a whole run of [main], whether it gets to the end or not,
    every URL passed to GET or to [take_screenshot] is a URL of a source of
    the catalog whose host is not skip-listed, and every HEAD request is on
    the platform candidate or on a well-known path of such a URL. *)
Theorem main_requests_catalog_urls (links : string) (no_screenshots : bool)
        (cutoff : Z) (s : state W) :
  exists tr,
    trace (snd (main links no_screenshots cutoff s)) = trace s ++ tr
    /\ (forall u, In (Get u) tr \/ In (Capture u) tr ->
          exists src, In src (parse_links_file links) /\ In u (urls src)
                      /\ should_skip u = Some false)
    /\ (forall v st, In (Head v st) tr ->
          exists src u, In src (parse_links_file links) /\ In u (urls src)
                        /\ should_skip u = Some false
                        /\ derived_probe u v).
Proof.
  rewrite main_run. cbn [snd].
  destruct (crawl_all_post no_screenshots cutoff (parse_links_file links)
                           [] s) as [tr [Htr [Hev _]]].
  exists tr. split; [exact Htr|]. split.
  - intros u [Hu | Hu];
      destruct (Hev _ Hu) as (src & u' & Hsrc & Hu' & Hskip & Hreq);
      simpl in Hreq; exists src.
    + subst u'. auto.
    + destruct Hreq as [_ ->]. auto.
  - intros v st Hv.
    destruct (Hev _ Hv) as (src & u & Hsrc & Hu & Hskip & Hreq).
    exists src, u. auto.
Qed.

Lemma finished_methods (no_screenshots : bool) (cutoff : Z) (nm : string)
      (us : list string) (r : crawl_record) :
  finished no_screenshots cutoff nm us r ->
  (new_entries r = [] -> method_is "rss" r = false)
  /\ (new_entries r <> [] -> method_is "rss" r = true)
  /\ (no_screenshots = true -> method_is "screenshot" r = false).
Proof.
  intros Hfin.
  pose proof (finished_valid _ _ _ _ _ Hfin) as [_ Hshape].
  destruct Hfin as (r0 & (_ & _ & _ & _ & _ & Hnone) & ->).
  unfold method_is.
  destruct Hshape as [(Hm & _ & He & _) | [(Hm & _ & He)
                                          | (Hm & _ & He & Hs)]];
    rewrite Hm.
  - destruct no_screenshots;
      (split; [|split]; [reflexivity | contradiction | reflexivity]).
  - split; [|split]; [contradiction | reflexivity | reflexivity].
  - split; [|split]; [reflexivity | contradiction|].
    intros Hmode. simpl in Hs. now rewrite (Hnone Hmode) in Hs.
Qed.

Lemma rss_count_zero (rs : list crawl_record) :
  Forall (fun r => (new_entries r = [] -> method_is "rss" r = false)
                   /\ (new_entries r <> [] -> method_is "rss" r = true)) rs ->
  list_sum (map (fun r => length (new_entries r)) rs) = 0
  <-> count_if (method_is "rss") rs = 0.
Proof.
  unfold count_if.
  induction 1 as [|r rs [Hnil Hcons] _ IH]; simpl; [tauto|].
  destruct (new_entries r) as [|e es] eqn:Hes.
  - rewrite Hnil by reflexivity. simpl. exact IH.
  - rewrite Hcons by discriminate. simpl. split; discriminate.
Qed.

Lemma count_none (p : crawl_record -> bool) (rs : list crawl_record) :
  Forall (fun r => p r = false) rs -> count_if p rs = 0.
Proof.
  unfold count_if. induction 1 as [|r rs Hr _ IH]; simpl; [reflexivity|].
  now rewrite Hr.
Qed.

(** X18: In the summary of [main], no entry was found exactly when no
    source has method [rss]; and in RSS-only mode no source has method
    [screenshot]. *)
Theorem summary_rss_and_entries (links : string) (no_screenshots : bool)
        (cutoff : Z) (s : state W) :
  match fst (main links no_screenshots cutoff s) with
  | Some (_, counts) =>
      (total_entries counts = 0 <-> rss_count counts = 0)
      /\ (no_screenshots = true -> screenshot_count counts = 0)
  | None =>
      exists src u, In src (parse_links_file links) /\ In u (urls src)
                    /\ urlparse u = None
  end.
Proof.
  pose proof (main_cases links no_screenshots cutoff s) as Hmain.
  destruct (fst (main links no_screenshots cutoff s))
    as [[results counts]|]; [|exact Hmain].
  destruct Hmain as (-> & Hrs & _). simpl.
  assert (Hall : Forall (fun r =>
                    (new_entries r = [] -> method_is "rss" r = false)
                    /\ (new_entries r <> [] -> method_is "rss" r = true)
                    /\ (no_screenshots = true ->
                        method_is "screenshot" r = false)) results).
  { apply (forall2_forall _ (parse_links_file links)).
    eapply forall2_weaken; [|exact Hrs].
    intros src r Hfin. now apply finished_methods in Hfin. }
  split.
  - apply rss_count_zero. eapply Forall_impl; [|exact Hall].
    simpl. tauto.
  - intros Hmode. apply count_none. eapply Forall_impl; [|exact Hall].
    simpl. tauto.
Qed.

End Session.

(** ** Runs on the concrete world *)



Lemma two_feeds_accumulate_witness :
  let u1 := "https://alpha.example/blog" in
  let u2 := "https://www.beta.example/" in
  let f1 := "https://alpha.example/feed.xml" in
  let f2 := "https://www.beta.example/atom.xml" in
  let s1 := snd (discover_feed u1 Demo.start) in
  let es1 := fst (fetch_feed_entries f1 Demo.cutoff s1) in
  let s2 := snd (fetch_feed_entries f1 Demo.cutoff s1) in
  let s3 := snd (discover_feed u2 s2) in
  let es2 := fst (fetch_feed_entries f2 Demo.cutoff s3) in
  let s4 := snd (fetch_feed_entries f2 Demo.cutoff s3) in
  (should_skip u1 = Some false /\ should_skip u2 = Some false
   /\ discover_feed u1 Demo.start = (Some (Some f1), s1)
   /\ fetch_feed_entries f1 Demo.cutoff s1 = (es1, s2)
   /\ length es1 = 2
   /\ discover_feed u2 s2 = (Some (Some f2), s3)
   /\ fetch_feed_entries f2 Demo.cutoff s3 = (es2, s4)
   /\ length es2 = 1)
  /\ exists r,
      crawl_one false Demo.cutoff (mk_source "Two" [u1; u2]) Demo.start
      = (Some r, s4)
      /\ method r = Some "rss"
      /\ length (new_entries r) = 3.
Proof.
  intros u1 u2 f1 f2 s1 es1 s2 s3 es2 s4.
  split; [repeat split; vm_compute; reflexivity|].
  destruct (two_feeds_accumulate false "Two" u1 u2 f1 f2 Demo.cutoff
              es1 es2 Demo.start s1 s2 s3 s4) as [r [Hr [Hm [_ Hlen]]]];
    try (vm_compute; reflexivity).
  exists r. auto.
Defined.


Lemma empty_feed_still_screenshots_witness :
  let pre := ["https://alpha.example/blog"] in
  let u := "https://delta.example/" in
  let f := "https://delta.example/rss" in
  let r0 := empty_record "Mixed" (pre ++ [u])%list in
  let r := set_rss r0 "https://alpha.example/feed.xml"
             (fst (fetch_feed_entries "https://alpha.example/feed.xml"
                     Demo.cutoff
                     (snd (discover_feed "https://alpha.example/blog"
                                         Demo.start)))) in
  let s := snd (for_urls (crawl_url Demo.cutoff) pre r0 Demo.start) in
  let s1 := snd (discover_feed u s) in
  let s2 := snd (fetch_feed_entries f Demo.cutoff s1) in
  (for_urls (crawl_url Demo.cutoff) pre r0 Demo.start = (Some r, s)
   /\ should_skip u = Some false
   /\ discover_feed u s = (Some (Some f), s1)
   /\ fetch_feed_entries f Demo.cutoff s1 = ([], s2))
  /\ exists tr,
      trace (snd (crawl_source "Mixed" (pre ++ [u])%list Demo.cutoff
                               Demo.start))
      = (trace s2 ++ Capture u :: tr)%list.
Proof.
  intros pre u f r0 r s s1 s2.
  split; [repeat split; vm_compute; reflexivity|].
  destruct (empty_feed_still_screenshots "Mixed" pre [] u f Demo.cutoff
              r Demo.start s s1 s2) as [_ Htr];
    try (vm_compute; reflexivity).
  exact Htr.
Defined.
